(** * nala bootstrapping: iteration controller and document filters

    A shallow embedding of [nala/bootstrapping/iteration.py] and
    [nala/bootstrapping/document_filters.py], with the properties of the
    design document checked against it.

    Conventions.
    - Python [str] values are [string]s (ASCII text), Python [int]s are [Z].
    - A [dict] is a [gmap]; where the insertion order of a dict is observable
      (rows written in iteration order) it is an association list.
    - A generator is the list of the pairs it yields, in order, together with
      the state it leaves behind.
    - Collaborators that live outside the repository (the regex engine, the
      sentence splitter, the CRF tagger, nalaf's entity equality and
      evaluator) are parameters of the sections that use them. *)

From Stdlib Require Import ZArith QArith Ascii String List Lia Bool.
From stdpp Require Import base tactics option list gmap strings pretty.

Local Open Scope Z_scope.

(** ** Text helpers shared by the two source files *)

Module Text.

(** [c] is one of the characters of the class [[0-9]]. *)
Definition is_digit (c : ascii) : bool :=
  match Ascii.is_nat c with Some _ => true | None => false end.

Definition digit_value (c : ascii) : Z :=
  match Ascii.is_nat c with Some d => Z.of_nat d | None => 0 end.

(** [int(ds)] for a string of decimal digits, most significant first. *)
Fixpoint digits_value (acc : Z) (ds : string) : Z :=
  match ds with
  | EmptyString => acc
  | String c ds' => digits_value (10 * acc + digit_value c) ds'
  end.

Definition int_of_digits (ds : string) : Z := digits_value 0 ds.

(** The longest prefix of digits, and what follows it: the greedy
    [[0-9]*]. *)
Fixpoint span_digits (s : string) : string * string :=
  match s with
  | EmptyString => (EmptyString, EmptyString)
  | String c s' =>
      if is_digit c
      then let '(ds, rest) := span_digits s' in (String c ds, rest)
      else (EmptyString, s)
  end.

(** [starts_with p s] is what follows [p] in [s] when [s] begins with the
    literal [p]. *)
Fixpoint starts_with (p s : string) : option string :=
  match p with
  | EmptyString => Some s
  | String a p' =>
      match s with
      | EmptyString => None
      | String b s' => if decide (a = b) then starts_with p' s' else None
      end
  end.

Fixpoint all_digits (s : string) : bool :=
  match s with
  | EmptyString => true
  | String c s' => is_digit c && all_digits s'
  end.

Fixpoint occurs (c : ascii) (s : string) : bool :=
  match s with
  | EmptyString => false
  | String a s' => if decide (a = c) then true else occurs c s'
  end.

(** [str.isascii()]. A string of this development holds the characters of
    a Python [str] one for one as long as the text is ASCII. *)
Fixpoint is_ascii (s : string) : bool :=
  match s with
  | EmptyString => true
  | String c s' => (nat_of_ascii c <? 128)%nat && is_ascii s'
  end.

(** [str.lower()] on ASCII text: the letters [A] to [Z] become [a] to [z]
    and nothing else changes. On other text [str.lower()] follows the
    Unicode tables and can change the number of characters; that is not
    modelled, and what is stated of the length of a lower-cased text is
    stated for ASCII text. *)
Definition lower_char (c : ascii) : ascii :=
  let n := nat_of_ascii c in
  if (Nat.leb 65 n && Nat.leb n 90)%bool then ascii_of_nat (n + 32) else c.

Fixpoint lower (s : string) : string :=
  match s with
  | EmptyString => EmptyString
  | String c s' => String (lower_char c) (lower s')
  end.

(** *** Facts about the helpers *)

Lemma app_cons (a : ascii) (s t : string) :
  String a s +:+ t = String a (s +:+ t).
Proof. reflexivity. Qed.

Lemma app_empty (t : string) : "" +:+ t = t.
Proof. reflexivity. Qed.

Lemma app_assoc (s t u : string) : (s +:+ t) +:+ u = s +:+ (t +:+ u).
Proof.
  induction s as [|a s IH]; [reflexivity|].
  rewrite !app_cons. by rewrite IH.
Qed.

Lemma starts_with_app (p x : string) : starts_with p (p +:+ x) = Some x.
Proof.
  induction p as [|a p IH]; [reflexivity|].
  rewrite app_cons. simpl. by rewrite decide_True.
Qed.

(** A literal without the character [c] cannot reach across [c]. *)
Lemma starts_with_app_sep (p s r : string) (c : ascii) :
  occurs c p = false →
  starts_with p (s +:+ String c r) = (λ x, x +:+ String c r) <$> starts_with p s.
Proof.
  revert s. induction p as [|a p IH]; intros s Hc; [reflexivity|].
  simpl in Hc. destruct (decide (a = c)) as [|Hac]; [discriminate|].
  destruct s as [|b s].
  - rewrite app_empty. simpl. by rewrite decide_False.
  - rewrite app_cons. simpl. destruct (decide (a = b)); [by apply IH|reflexivity].
Qed.

Lemma span_digits_app_sep (s r : string) (c : ascii) :
  is_digit c = false →
  fst (span_digits (s +:+ String c r)) = fst (span_digits s).
Proof.
  intros Hc. induction s as [|a s IH].
  - rewrite app_empty. simpl. by rewrite Hc.
  - rewrite app_cons. simpl. destruct (is_digit a); [|reflexivity].
    destruct (span_digits (s +:+ String c r)), (span_digits s).
    simpl in *. by rewrite IH.
Qed.

Lemma span_digits_all (d r : string) (c : ascii) :
  all_digits d = true → is_digit c = false →
  span_digits (d +:+ String c r) = (d, String c r).
Proof.
  intros Hd Hc. induction d as [|a d IH].
  - rewrite app_empty. simpl. by rewrite Hc.
  - rewrite app_cons. simpl in *. apply andb_true_iff in Hd as [Ha Hd].
    rewrite Ha, (IH Hd). reflexivity.
Qed.

(** What [pretty] prints in front of [s] is made of digits, is read back
    by [digits_value], and is not empty for a positive number. *)
Lemma pretty_N_go_all_digits (x : N) (s : string) :
  all_digits s = true → all_digits (pretty_N_go x s) = true.
Proof.
  revert s. induction (N.lt_wf_0 x) as [x _ IH]; intros s Hs.
  destruct (decide (x = 0%N)) as [->|Hx]; [by rewrite pretty_N_go_0|].
  rewrite pretty_N_go_step by lia. apply IH.
  - apply N.div_lt; lia.
  - simpl. rewrite Hs, andb_true_r.
    unfold pretty_N_char. by repeat case_match.
Qed.

Lemma digit_value_pretty_N_char (d : N) :
  (d < 10)%N → digit_value (pretty_N_char d) = Z.of_N d.
Proof.
  intros Hd.
  assert (d = 0 ∨ d = 1 ∨ d = 2 ∨ d = 3 ∨ d = 4 ∨ d = 5 ∨ d = 6
          ∨ d = 7 ∨ d = 8 ∨ d = 9)%N as Hcases by lia.
  by repeat (destruct Hcases as [->|Hcases]; [reflexivity|]); subst.
Qed.

Lemma pretty_N_go_value (x : N) (s : string) :
  ∃ k : Z, 0 ≤ k ∧ ∀ acc,
    digits_value acc (pretty_N_go x s) = digits_value (acc * 10 ^ k + Z.of_N x) s.
Proof.
  revert s. induction (N.lt_wf_0 x) as [x _ IH]; intros s.
  destruct (decide (x = 0%N)) as [->|Hx].
  - exists 0. split; [lia|]. intros acc. rewrite pretty_N_go_0. f_equal. lia.
  - rewrite pretty_N_go_step by lia.
    destruct (IH (x `div` 10)%N) with (s := String (pretty_N_char (x `mod` 10)) s)
      as (k & Hk & Heq); [apply N.div_lt; lia|].
    exists (k + 1). split; [lia|]. intros acc. rewrite Heq. simpl.
    rewrite digit_value_pretty_N_char by (apply N.mod_lt; lia).
    f_equal. rewrite Z.pow_add_r by lia.
    pose proof (N.div_mod x 10 ltac:(lia)) as Hdm.
    rewrite N2Z.inj_div, N2Z.inj_mod in *.
    pose proof (Z.div_mod (Z.of_N x) 10 ltac:(lia)). lia.
Qed.

Lemma pretty_N_go_nonempty (x : N) (s : string) :
  s ≠ "" → pretty_N_go x s ≠ "".
Proof.
  revert s. induction (N.lt_wf_0 x) as [x _ IH]; intros s Hs.
  destruct (decide (x = 0%N)) as [->|Hx]; [by rewrite pretty_N_go_0|].
  rewrite pretty_N_go_step by lia. apply IH; [apply N.div_lt; lia|done].
Qed.

(** [str(n)] of a natural number is a non-empty string of digits whose
    [int] is [n]. *)
Lemma pretty_Z_digits (n : Z) :
  0 ≤ n →
  all_digits (pretty n) = true ∧ pretty n ≠ "" ∧ int_of_digits (pretty n) = n.
Proof.
  intros Hn. destruct n as [|p|p]; [by repeat split| |lia].
  change (pretty (Z.pos p)) with (pretty (N.pos p)).
  unfold pretty, pretty_N. rewrite decide_False by done.
  split; [by apply pretty_N_go_all_digits|]. split.
  - rewrite pretty_N_go_step by lia. by apply pretty_N_go_nonempty.
  - unfold int_of_digits.
    destruct (pretty_N_go_value (N.pos p) "") as (k & _ & ->). simpl. lia.
Qed.

End Text.

(** ** [Iteration.__init__]: finding the iteration number *)

Module IterationInit.
Import Text.

(** What the constructor can observe of an entry of the bootstrapping
    folder: a regular file, or a directory with the names of the
    directories directly inside it. *)
Inductive node :=
| File
| Dir (subdirs : gset string).

Inductive error :=
| FileNotFoundError   (* a required folder is missing *)
| AttributeError.     (* [match.group] on a failed [re.search] *)

Record iteration := {
  number : Z;
  current_folder : string;
  candidates_folder : string;
  reviewed_folder : string;
}.

(** [re.search('iteration_([0-9]+)', fn)] tried at the start of [s] only:
    the integer value of group 1. *)
Definition match_here (s : string) : option Z :=
  match starts_with "iteration_" s with
  | Some rest =>
      match span_digits rest with
      | (EmptyString, _) => None
      | (ds, _) => Some (int_of_digits ds)
      end
  | None => None
  end.

(** [int(re.search('iteration_([0-9]+)', fn).group(1))]: the leftmost
    match, [None] when the pattern occurs nowhere. *)
Fixpoint re_search (s : string) : option Z :=
  match match_here s with
  | Some n => Some n
  | None =>
      match s with
      | EmptyString => None
      | String _ s' => re_search s'
      end
  end.

(** ["iteration_{}".format(n)] *)
Definition iteration_name (n : Z) : string := "iteration_" +:+ pretty n.

(** [os.path.join(folder, name)] for a relative [name]. *)
Definition join (folder name : string) : string := folder +:+ "/" +:+ name.

Definition is_iteration_glob (entry : string * node) : bool :=
  match entry with
  | (name, Dir _) =>
      match starts_with "iteration_" name with Some _ => true | None => false end
  | (_, File) => false
  end.

(** [glob.has_magic(s)]: an asterisk, a question mark or an opening
    bracket occurs in [s]. *)
Fixpoint has_magic (s : string) : bool :=
  match s with
  | EmptyString => false
  | String c s' =>
      match c with
      | "*" | "?" | "[" => true
      | _ => has_magic s'
      end%char
  end.

(** [glob.glob(folder + "/iteration_*/")] for a folder whose path [glob]
    takes literally, [has_magic folder = false]: the directories of the
    folder whose name begins with [iteration_], as paths with a trailing
    slash, in the order of the directory listing. The constructor does not
    escape the path of the folder: with a metacharacter in it, [glob]
    matches that path against the directories beside the folder, and what
    it reports is not decided by the content of the folder. *)
Definition glob_iterations (folder : string) (fs : gmap string node) : list string :=
  (λ e : string * node, join folder (fst e) +:+ "/")
    <$> List.filter is_iteration_glob (map_to_list fs).

(** The loop over the glob results, from the running [self.number]. *)
Fixpoint scan (fns : list string) (number : Z) : error + Z :=
  match fns with
  | [] => inr number
  | fn :: fns' =>
      match re_search fn with
      | None => inl AttributeError
      | Some found_iteration =>
          scan fns' (if found_iteration >? number then found_iteration else number)
      end
  end.

(** [os.path.isdir(os.path.join(folder, name, sub))] *)
Definition isdir2 (fs : gmap string node) (name sub : string) : bool :=
  match fs !! name with
  | Some (Dir subdirs) => bool_decide (sub ∈ subdirs)
  | _ => false
  end.

Definition find_number (folder : string) (fs : gmap string node) : error + Z :=
  match scan (glob_iterations folder fs) (-1) with
  | inl e => inl e
  | inr n =>
      let n1 :=
        if isdir2 fs (iteration_name n) "candidates"
        then (if isdir2 fs (iteration_name n) "reviewed" then n + 1 else n)
        else n in
      inr (if n1 =? 0 then n1 + 1 else n1)
  end.

(** [if not os.path.exists(p): os.mkdir(p)] for an entry of the folder. *)
Definition ensure_dir (name : string) (fs : gmap string node) : gmap string node :=
  match fs !! name with
  | Some _ => fs
  | None => <[name := Dir ∅]> fs
  end.

(** [if not os.path.exists(stats_file): open(stats_file, 'w') ...] *)
Definition ensure_stats (fs : gmap string node) : gmap string node :=
  match fs !! "stats.csv" with
  | Some _ => fs
  | None => <["stats.csv" := File]> fs
  end.

(** [Iteration.__init__(folder, iteration_nr, crfsuite_path)].
    [root] is the content of the bootstrapping folder, [None] when the
    folder is not a directory; [crfsuite_isdir] is the outcome of the check
    on the CRFsuite folder. The result is the new object with the folder
    as the constructor leaves it. *)
Definition init (folder : string) (root : option (gmap string node))
    (crfsuite_isdir : bool) (iteration_nr : option Z)
  : error + (iteration * gmap string node) :=
  match root with
  | None => inl FileNotFoundError
  | Some fs =>
      if negb crfsuite_isdir then inl FileNotFoundError else
      let found :=
        match iteration_nr with
        | None => find_number folder fs
        | Some nr => inr nr
        end in
      match found with
      | inl e => inl e
      | inr n =>
          let cur := join folder (iteration_name n) in
          inr ({| number := n;
                  current_folder := cur;
                  candidates_folder := join cur "candidates";
                  reviewed_folder := join cur "reviewed" |},
               ensure_stats (ensure_dir (iteration_name n) fs))
      end
  end.

(** *** The regular expression on the paths that [glob] returns *)

Local Arguments match_here : simpl never.

Lemma match_here_app_sep (s r : string) :
  match_here (s +:+ String "/"%char r) = match_here s.
Proof.
  unfold match_here. rewrite starts_with_app_sep by reflexivity.
  destruct (starts_with "iteration_" s) as [x|]; simpl; [|done].
  pose proof (span_digits_app_sep x r "/"%char eq_refl) as H.
  destruct (span_digits (x +:+ String "/"%char r)) as [d1 r1].
  destruct (span_digits x) as [d2 r2]. simpl in H. by subst.
Qed.

(** A match never straddles a path separator. *)
Lemma re_search_app_sep (s r : string) :
  re_search (s +:+ String "/"%char r)
  = match re_search s with Some n => Some n | None => re_search r end.
Proof.
  induction s as [|b s IH].
  - rewrite app_empty. reflexivity.
  - rewrite app_cons.
    change (re_search (String b (s +:+ String "/"%char r)))
      with (match match_here (String b (s +:+ String "/"%char r)) with
            | Some n => Some n
            | None => re_search (s +:+ String "/"%char r)
            end).
    rewrite <- app_cons, match_here_app_sep, IH. simpl.
    by destruct (match_here (String b s)).
Qed.

Lemma match_here_iteration_name (n : Z) (r : string) :
  0 ≤ n → match_here (iteration_name n +:+ String "/"%char r) = Some n.
Proof.
  intros Hn. destruct (pretty_Z_digits n Hn) as (Hd & Hne & Hv).
  unfold match_here, iteration_name.
  rewrite app_assoc, starts_with_app, span_digits_all by done.
  rewrite Hv. by destruct (pretty n).
Qed.

Lemma re_search_here (s : string) (n : Z) :
  match_here s = Some n → re_search s = Some n.
Proof. intros H. destruct s; [discriminate H|]. simpl. by rewrite H. Qed.

Lemma re_search_iteration_path (folder : string) (n : Z) :
  re_search folder = None → 0 ≤ n →
  re_search (join folder (iteration_name n) +:+ "/") = Some n.
Proof.
  intros Hf Hn. unfold join. rewrite app_assoc.
  change ("/" +:+ iteration_name n)
    with (String "/"%char (iteration_name n)).
  rewrite app_cons, re_search_app_sep, Hf.
  apply re_search_here.
  change "/" with (String "/"%char "").
  by apply match_here_iteration_name.
Qed.

Local Arguments starts_with : simpl never.

Lemma elem_of_glob_iterations (folder : string) (fs : gmap string node) (fn : string) :
  fn ∈ glob_iterations folder fs ↔
  ∃ name subdirs, fs !! name = Some (Dir subdirs)
    ∧ is_Some (starts_with "iteration_" name)
    ∧ fn = join folder name +:+ "/".
Proof.
  unfold glob_iterations. rewrite list_elem_of_fmap. split.
  - intros [[name nd] [-> Hin]].
    apply list_elem_of_In, filter_In in Hin as [Hin Hf].
    apply list_elem_of_In, elem_of_map_to_list in Hin.
    destruct nd as [|subdirs]; simpl in Hf; [done|].
    exists name, subdirs. split; [done|]. split; [|done].
    destruct (starts_with "iteration_" name); [eauto|done].
  - intros (name & subdirs & Hl & [x Hx] & ->).
    exists (name, Dir subdirs). split; [done|].
    apply list_elem_of_In, filter_In. split.
    + by apply list_elem_of_In, elem_of_map_to_list.
    + simpl. by rewrite Hx.
Qed.

(** The loop keeps the largest number found: its result does not depend
    on the order of the directory listing. *)
Lemma scan_max (fns : list string) (k n : Z) :
  k ≤ n →
  (∀ fn, fn ∈ fns → ∃ m, re_search fn = Some m ∧ m ≤ n) →
  (k = n ∨ ∃ fn, fn ∈ fns ∧ re_search fn = Some n) →
  scan fns k = inr n.
Proof.
  revert k. induction fns as [|fn fns IH]; intros k Hk Hall Hex.
  - destruct Hex as [->|(fn & Hin & _)]; [done|]. by apply elem_of_nil in Hin.
  - destruct (Hall fn) as (m & Hm & Hle); [by left|].
    simpl. rewrite Hm. apply IH.
    + destruct (Z.gtb_spec m k); lia.
    + intros fn' Hin. apply Hall. by right.
    + destruct Hex as [->|(fn' & Hin & Hn)].
      * left. destruct (Z.gtb_spec m n); lia.
      * apply elem_of_cons in Hin as [->|Hin].
        -- left. rewrite Hn in Hm. injection Hm as <-.
           destruct (Z.gtb_spec n k); lia.
        -- right. eauto.
Qed.

(** *** The layout of the design document *)

(** [iteration_n] is a directory of the folder. *)
Definition is_iteration_dir (fs : gmap string node) (n : Z) : Prop :=
  ∃ subdirs, fs !! iteration_name n = Some (Dir subdirs).

(** Every directory that [glob] reports is named [iteration_<n>], with [n]
    written as [format] writes it. *)
Definition canonical_layout (fs : gmap string node) : Prop :=
  ∀ name subdirs, fs !! name = Some (Dir subdirs) →
    is_Some (starts_with "iteration_" name) →
    ∃ n, 0 ≤ n ∧ name = iteration_name n.

(** Iteration [n] has both a [candidates] and a [reviewed] directory. *)
Definition closed (fs : gmap string node) (n : Z) : bool :=
  isdir2 fs (iteration_name n) "candidates" && isdir2 fs (iteration_name n) "reviewed".

Definition resumed_number (fs : gmap string node) (n : Z) : Z :=
  let advanced := if closed fs n then n + 1 else n in
  if advanced =? 0 then 1 else advanced.

Lemma scan_glob_highest (folder : string) (fs : gmap string node) (n : Z) :
  re_search folder = None → canonical_layout fs →
  0 ≤ n → is_iteration_dir fs n →
  (∀ m, 0 ≤ m → is_iteration_dir fs m → m ≤ n) →
  scan (glob_iterations folder fs) (-1) = inr n.
Proof.
  intros Hpath Hlay Hn [sd Hdir] Hmax. apply scan_max; [lia| |].
  - intros fn (name & subdirs & Hl & Hs & ->)%elem_of_glob_iterations.
    destruct (Hlay _ _ Hl Hs) as (m & Hm & ->).
    exists m. split; [by apply re_search_iteration_path|].
    apply Hmax; [done|]. by exists subdirs.
  - right. exists (join folder (iteration_name n) +:+ "/"). split.
    + apply elem_of_glob_iterations. exists (iteration_name n), sd.
      split; [done|]. split; [|done]. unfold iteration_name.
      rewrite starts_with_app. eauto.
    + by apply re_search_iteration_path.
Qed.

Lemma find_number_highest (folder : string) (fs : gmap string node) (n : Z) :
  re_search folder = None → canonical_layout fs →
  0 ≤ n → is_iteration_dir fs n →
  (∀ m, 0 ≤ m → is_iteration_dir fs m → m ≤ n) →
  find_number folder fs = inr (resumed_number fs n).
Proof.
  intros. unfold find_number, resumed_number, closed.
  rewrite (scan_glob_highest folder fs n) by done.
  destruct (isdir2 fs (iteration_name n) "candidates"),
           (isdir2 fs (iteration_name n) "reviewed"); simpl;
    f_equal; case_match; try reflexivity; lia.
Qed.

Lemma iteration_name_inj (x y : Z) : iteration_name x = iteration_name y → x = y.
Proof.
  unfold iteration_name. intros H%String.app_inj. by apply pretty_Z_inj in H.
Qed.

Lemma canonical_layout_empty : canonical_layout ∅.
Proof. intros name subdirs Hl. by rewrite lookup_empty in Hl. Qed.

Lemma canonical_layout_insert (fs : gmap string node) (n : Z) (nd : node) :
  0 ≤ n → canonical_layout fs → canonical_layout (<[iteration_name n := nd]> fs).
Proof.
  intros Hn Hfs name subdirs Hl Hs.
  destruct (decide (iteration_name n = name)) as [<-|Hne]; [eauto|].
  rewrite lookup_insert_ne in Hl by done. eauto.
Qed.

Lemma canonical_layout_insert_file (fs : gmap string node) (name : string) :
  canonical_layout fs → canonical_layout (<[name := File]> fs).
Proof.
  intros Hfs name' subdirs Hl Hs.
  destruct (decide (name = name')) as [<-|Hne].
  - by rewrite lookup_insert_eq in Hl.
  - rewrite lookup_insert_ne in Hl by done. eauto.
Qed.

Lemma ensure_dir_lookup_ne (fs : gmap string node) (name other : string) :
  name ≠ other → ensure_dir name fs !! other = fs !! other.
Proof.
  intros Hne. unfold ensure_dir. destruct (fs !! name); [done|].
  by rewrite lookup_insert_ne.
Qed.

Lemma ensure_stats_lookup_ne (fs : gmap string node) (other : string) :
  "stats.csv" ≠ other → ensure_stats fs !! other = fs !! other.
Proof.
  intros Hne. unfold ensure_stats. destruct (fs !! "stats.csv"); [done|].
  by rewrite lookup_insert_ne.
Qed.

Lemma resumed_number_lower (fs : gmap string node) (n : Z) :
  0 ≤ n → n ≤ resumed_number fs n.
Proof.
  intros Hn. unfold resumed_number. destruct (closed fs n); case_match; lia.
Qed.

(** X30. Where the code does find the highest iteration: on a folder whose
    path [glob] takes literally and in which [iteration_<digits>] occurs
    nowhere, and whose [iteration_*] directories are all named
    [iteration_<n>] as [format] writes [n], the constructor called without
    an iteration number takes the highest [n] with a directory
    [iteration_n], advances it by one exactly when that directory has both
    a [candidates] and a [reviewed] directory, and turns a resulting 0 into
    1. It works in the directory of that number, and no iteration
    directory with a higher number exists afterwards. *)
Theorem init_resumes_at_highest_iteration
    (folder : string) (fs : gmap string node) (n : Z) :
  has_magic folder = false →
  re_search folder = None →
  canonical_layout fs →
  0 ≤ n →
  is_iteration_dir fs n →
  (∀ m, 0 ≤ m → is_iteration_dir fs m → m ≤ n) →
  ∃ it fs',
    init folder (Some fs) true None = inr (it, fs')
    ∧ number it = resumed_number fs n
    ∧ current_folder it = join folder (iteration_name (number it))
    ∧ ∀ m, number it < m → ¬ is_iteration_dir fs' m.
Proof.
  intros _ Hpath Hlay Hn Hdir Hmax.
  unfold init. simpl. rewrite (find_number_highest folder fs n) by done.
  eexists _, _. split; [reflexivity|]. simpl.
  split; [reflexivity|]. split; [reflexivity|].
  intros m Hm [subdirs Hl].
  pose proof (resumed_number_lower fs n Hn) as Hlow.
  rewrite ensure_stats_lookup_ne in Hl
    by (unfold iteration_name; by destruct (pretty m)).
  rewrite ensure_dir_lookup_ne in Hl by (intros ?%iteration_name_inj; lia).
  assert (m ≤ n); [|lia]. apply Hmax; [lia|]. by exists subdirs.
Qed.

(** Two closed iterations and iteration 3 waiting for its review. *)
Definition resuming_folder : gmap string node :=
  <[iteration_name 3 := Dir {["candidates"]}]>
    (<[iteration_name 2 := Dir ({["candidates"]} ∪ {["reviewed"]})]>
       (<[iteration_name 0 := Dir {["base"]}]>
          (<["stats.csv" := File]> ∅))).

Lemma init_resumes_at_highest_iteration_witness :
  ∃ it fs',
    init "/data/bootstrapping" (Some resuming_folder) true None = inr (it, fs')
    ∧ number it = 3
    ∧ current_folder it = "/data/bootstrapping/iteration_3"
    ∧ ¬ is_iteration_dir fs' 4.
Proof.
  destruct (init_resumes_at_highest_iteration "/data/bootstrapping" resuming_folder 3)
    as (it & fs' & Hinit & Hnumber & Hcur & Habove).
  7: { assert (number it = 3) as H3 by (rewrite Hnumber; reflexivity).
       exists it, fs'. split; [exact Hinit|]. split; [exact H3|].
       split; [rewrite Hcur, H3; reflexivity|]. apply Habove. lia. }
  - reflexivity.
  - reflexivity.
  - unfold resuming_folder.
    repeat (apply canonical_layout_insert; [lia|]).
    apply canonical_layout_insert_file, canonical_layout_empty.
  - lia.
  - eexists. unfold resuming_folder. apply lookup_insert_eq.
  - intros m Hm [subdirs Hl]. unfold resuming_folder in Hl.
    repeat (rewrite lookup_insert in Hl; case_decide as Hname;
            [apply iteration_name_inj in Hname; lia|clear Hname]).
    rewrite lookup_insert in Hl. case_decide; [discriminate Hl|].
    by rewrite lookup_empty in Hl.
Defined.

(** A folder as the design document lays it out, iteration 3 waiting for
    its review, and a second one with a copy of an old iteration beside
    it. *)
Definition waiting_folder : gmap string node :=
  <[iteration_name 3 := Dir {["candidates"]}]> (<["stats.csv" := File]> ∅).

Definition folder_with_backup : gmap string node :=
  <["iteration_10_backup" := Dir ∅]> waiting_folder.

(** C1 fails on the code: the number is read with
    [re.search('iteration_([0-9]+)', fn)] from the whole path that [glob]
    returns, and the leftmost match wins. With the bootstrapping folder
    [/data/iteration_7/boot], holding [iteration_3] with [candidates] and
    without [reviewed] and no other iteration directory, every path
    matches in the path of the folder first: the controller takes number
    7 and creates [iteration_7] instead of resuming at 3. The match is
    not anchored at the end of the name either: beside [iteration_3], a
    directory [iteration_10_backup] gives number 10. *)
Theorem init_reads_number_from_path :
  (∃ it fs',
     init "/data/iteration_7/boot" (Some waiting_folder) true None = inr (it, fs')
     ∧ number it = 7
     ∧ current_folder it = "/data/iteration_7/boot/iteration_7"
     ∧ waiting_folder !! iteration_name 7 = None
     ∧ fs' !! iteration_name 7 = Some (Dir ∅)
     ∧ (∀ m, is_iteration_dir waiting_folder m → m = 3)
     ∧ resumed_number waiting_folder 3 = 3)
  ∧ (∃ it fs',
       init "/data/bootstrapping" (Some folder_with_backup) true None = inr (it, fs')
       ∧ number it = 10
       ∧ (∀ m, is_iteration_dir folder_with_backup m → m = 3)).
Proof.
  assert (∀ m, is_iteration_dir waiting_folder m → m = 3) as Hw.
  { intros m [subdirs Hl]. unfold waiting_folder in Hl.
    rewrite lookup_insert in Hl. case_decide as Hname;
      [by apply iteration_name_inj in Hname|].
    rewrite lookup_insert in Hl. case_decide as Hstats; [discriminate Hl|].
    by rewrite lookup_empty in Hl. }
  split.
  - eexists _, _. split; [by vm_compute|].
    split; [reflexivity|]. split; [reflexivity|].
    split; [by vm_compute|]. split; [by vm_compute|]. split; [exact Hw|].
    reflexivity.
  - eexists _, _. split; [by vm_compute|]. split; [reflexivity|].
    intros m [subdirs Hl]. unfold folder_with_backup in Hl.
    rewrite lookup_insert in Hl. case_decide as Hname.
    + exfalso.
      assert (Some "10_backup" = starts_with "iteration_" (iteration_name m)) as Hrest
        by (by rewrite <- Hname).
      unfold iteration_name in Hrest. rewrite starts_with_app in Hrest.
      injection Hrest as Hrest. destruct m as [|q|q]; [discriminate Hrest| |].
      * destruct (pretty_Z_digits (Z.pos q)) as [Hd _]; [lia|].
        rewrite <- Hrest in Hd. discriminate Hd.
      * change (pretty (Z.neg q)) with ("-" +:+ pretty (N.pos q)) in Hrest.
        discriminate Hrest.
    + apply Hw. by exists subdirs.
Qed.


(** A fresh bootstrapping folder: only the ledger and a seed directory
    under another name. *)
Definition fresh_folder : gmap string node :=
  <["base" := Dir {["html"]}]> (<["stats.csv" := File]> ∅).


End IterationInit.


(** ** Documents, as the filters and the evaluation see them *)

Module Data.

(** [nalaf.structures.data.Entity]: the fields the repository reads. *)
Record Entity := {
  class_id : string;
  offset : Z;
  text : string;
  subclass : Z;
  confidence : Q;
}.

Record Part := {
  part_text : string;
  annotations : list Entity;
  predicted_annotations : list Entity;
}.

(** [doc.parts] is an ordered dict from part names to parts. *)
Record Document := {
  parts : list (string * Part);
}.

(** What a filter consumes and yields: [(pmid, doc)]. *)
Definition item : Type := string * Document.

End Data.

(** ** A small regular-expression engine for the concrete runs

    The filters are stated over an arbitrary compiled pattern. The runs on
    concrete documents use the patterns below: a literal, optionally
    followed by [\w*], optionally compiled with [re.IGNORECASE]. *)

Module Regex.
Import Text.

Record pattern := {
  source : string;        (* [reg.pattern] *)
  literal : string;
  word_tail : bool;       (* the literal is followed by [\w*] *)
  ignorecase : bool;
}.

Definition is_word_char (c : ascii) : bool :=
  let n := nat_of_ascii c in
  (Nat.leb 48 n && Nat.leb n 57) || (Nat.leb 65 n && Nat.leb n 90)
  || (Nat.leb 97 n && Nat.leb n 122) || Nat.eqb n 95.

Fixpoint word_run (s : string) : Z :=
  match s with
  | EmptyString => 0
  | String c s' => if is_word_char c then 1 + word_run s' else 0
  end.

(** The leftmost occurrence of [lit] in [s], counted from [pos], with what
    follows the occurrence. *)
Fixpoint find (lit s : string) (pos : Z) : option (Z * string) :=
  match starts_with lit s with
  | Some rest => Some (pos, rest)
  | None =>
      match s with
      | EmptyString => None
      | String _ s' => find lit s' (pos + 1)
      end
  end.

(** [reg.search(s)]: the span of the leftmost match. *)
Definition search (reg : pattern) (s : string) : option (Z * Z) :=
  let lit := if ignorecase reg then lower (literal reg) else literal reg in
  let txt := if ignorecase reg then lower s else s in
  match find lit txt 0 with
  | Some (start, rest) =>
      let tail := if word_tail reg then word_run rest else 0 in
      Some (start, start + Z.of_nat (String.length lit) + tail)
  | None => None
  end.

(** [re.compile(stem + '\w*', re.IGNORECASE)] *)
Definition stem_i (stem : string) : pattern :=
  {| source := stem +:+ "\w*"; literal := stem; word_tail := true; ignorecase := true |}.

Definition lit_i (s : string) : pattern :=
  {| source := s; literal := s; word_tail := false; ignorecase := true |}.

Definition lit (s : string) : pattern :=
  {| source := s; literal := s; word_tail := false; ignorecase := false |}.

End Regex.


(** ** [document_filters.py] *)

Module Filters.
Import Text Data.

(** *** [StubDocumentFilter] *)

Definition stub_filter (documents : list item) : list item := documents.

(** *** [KeywordsDocumentFilter]

    [__init__] stores in [self.keywords] a generator expression over the
    compiled keywords, not a list. A generator is consumed as it is read:
    the state of the filter is what is left of it. *)

Section Keywords.
Context {pattern : Type}.
Variable search : pattern → string → option (Z * Z).

(** [any(keyword.search(text) for keyword in self.keywords)]: [any] stops
    reading the generator at the first hit. Returns what is left of it. *)
Fixpoint any_keyword (text : string) (keywords : list pattern) : bool * list pattern :=
  match keywords with
  | [] => (false, [])
  | keyword :: rest =>
      match search keyword text with
      | Some _ => (true, rest)
      | None => any_keyword text rest
      end
  end.

(** [any(... for part in doc.parts.values())] *)
Fixpoint any_part (ps : list (string * Part)) (keywords : list pattern)
  : bool * list pattern :=
  match ps with
  | [] => (false, keywords)
  | (_, part) :: rest =>
      match any_keyword (part_text part) keywords with
      | (true, remaining) => (true, remaining)
      | (false, remaining) => any_part rest remaining
      end
  end.

(** [KeywordsDocumentFilter.filter]: the pairs yielded, and the generator as
    the call leaves it. *)
Fixpoint keywords_filter (documents : list item) (keywords : list pattern)
  : list item * list pattern :=
  match documents with
  | [] => ([], keywords)
  | (pmid, doc) :: rest =>
      match any_part (parts doc) keywords with
      | (true, remaining) =>
          let '(out, final) := keywords_filter rest remaining in
          ((pmid, doc) :: out, final)
      | (false, remaining) => keywords_filter rest remaining
      end
  end.

(** What the class documents: some keyword matches the text of some part. *)
Definition contains_keyword (keywords : list pattern) (doc : Document) : bool :=
  existsb (λ p : string * Part,
             existsb (λ k, bool_decide (is_Some (search k (part_text (snd p)))))
                     keywords)
          (parts doc).

End Keywords.

(** [('mutat\w*', 'variat\w*', 'substit\w*', 'insert\w*', 'delet\w*', 'snp')]
    compiled with [re.IGNORECASE]. *)
Definition default_keywords : list Regex.pattern :=
  [Regex.stem_i "mutat"; Regex.stem_i "variat"; Regex.stem_i "substit";
   Regex.stem_i "insert"; Regex.stem_i "delet"; Regex.lit_i "snp"].

(** *** The manual filters

    The console is the list of the lines still to be typed; [input()] on an
    empty console raises [EOFError]. The cache is the dict of [Cacheable]. *)

Inductive status :=
| Exhausted      (* the input sequence ended *)
| Stopped        (* the operator stopped the run *)
| EOFError.      (* [input()] found the console closed *)

Record manual_run := {
  yielded : list item;
  cache : gmap string bool;
  console : list string;
  prompted : list string;   (* the ids printed for the operator, in order *)
  ended : status;
}.

Definition yield (x : item) (r : manual_run) : manual_run :=
  {| yielded := x :: yielded r; cache := cache r; console := console r;
     prompted := prompted r; ended := ended r |}.

Definition prompt (pmid : string) (r : manual_run) : manual_run :=
  {| yielded := yielded r; cache := cache r; console := console r;
     prompted := pmid :: prompted r; ended := ended r |}.

(** [answer.lower() in ['yes', 'y']] *)
Definition is_yes (answer : string) : bool :=
  bool_decide (lower answer ∈ ["yes"; "y"]).

(** [ManualDocumentFilter.filter] *)
Fixpoint manual_filter (documents : list item) (c : gmap string bool)
    (inputs : list string) : manual_run :=
  match documents with
  | [] => {| yielded := []; cache := c; console := inputs; prompted := [];
             ended := Exhausted |}
  | (pmid, doc) :: rest =>
      match c !! pmid with
      | Some decision =>
          let r := manual_filter rest c inputs in
          if decision : bool then yield (pmid, doc) r else r
      | None =>
          match inputs with
          | [] => {| yielded := []; cache := c; console := []; prompted := [pmid];
                     ended := EOFError |}
          | answer :: inputs' =>
              let c' := <[pmid := is_yes answer]> c in
              if decide (lower answer = "s")
              then {| yielded := []; cache := c'; console := inputs';
                      prompted := [pmid]; ended := Stopped |}
              else
                let r := manual_filter rest c' inputs' in
                prompt pmid (if is_yes answer then yield (pmid, doc) r else r)
          end
      end
  end.

(** The state of a [ManualStatsDocumentFilter] besides its cache. *)
Record stats := {
  answers : gmap string string;
  counter : gmap string nat;
}.

Record stats_run := {
  s_run : manual_run;
  s_stats : stats;
}.

Definition recognized (yes_answers : list string) (answer : string) : bool :=
  bool_decide (answer ∈ yes_answers) || bool_decide (answer = "no")
  || bool_decide (answer = "stop").

(** The [while True] loop around [input()]: it reads lines until one is a
    recognized answer. [None] when the console ends first. *)
Fixpoint ask (yes_answers : list string) (inputs : list string)
  : option (string * list string) :=
  match inputs with
  | [] => None
  | line :: inputs' =>
      let answer := lower line in
      if recognized yes_answers answer then Some (answer, inputs')
      else ask yes_answers inputs'
  end.

(** [self.counter.update([answer])] *)
Definition count (answer : string) (counter : gmap string nat) : gmap string nat :=
  <[answer := S (default 0%nat (counter !! answer))]> counter.

(** [Counter({s: 0 for s in (self.yes_answers + ['no'])})] *)
Definition initial_counter (yes_answers : list string) : gmap string nat :=
  list_to_map ((λ s, (s, 0%nat)) <$> (yes_answers ++ ["no"])).

(** [ManualStatsDocumentFilter.filter]; [yes_answers] is [self.yes_answers],
    already lower-cased by [__init__]. *)
Fixpoint manual_stats_filter (yes_answers : list string) (documents : list item)
    (c : gmap string bool) (st : stats) (inputs : list string) : stats_run :=
  match documents with
  | [] => {| s_run := {| yielded := []; cache := c; console := inputs;
                         prompted := []; ended := Exhausted |};
             s_stats := st |}
  | (docid, doc) :: rest =>
      match c !! docid with
      | Some decision =>
          let r := manual_stats_filter yes_answers rest c st inputs in
          if decision : bool
          then {| s_run := yield (docid, doc) (s_run r); s_stats := s_stats r |}
          else r
      | None =>
          match ask yes_answers inputs with
          | None => {| s_run := {| yielded := []; cache := c; console := [];
                                   prompted := [docid]; ended := EOFError |};
                       s_stats := st |}
          | Some (answer, inputs') =>
              if decide (answer = "stop")
              then {| s_run := {| yielded := []; cache := c; console := inputs';
                                  prompted := [docid]; ended := Stopped |};
                      s_stats := st |}
              else
                let st' := {| answers := <[docid := answer]> (answers st);
                              counter := count answer (counter st) |} in
                let accepted := bool_decide (answer ∈ yes_answers) in
                let r := manual_stats_filter yes_answers rest
                           (<[docid := accepted]> c) st' inputs' in
                {| s_run := prompt docid
                              (if accepted then yield (docid, doc) (s_run r)
                               else s_run r);
                   s_stats := s_stats r |}
          end
      end
  end.

(** *** [HighRecallRegexDocumentFilter] *)

(** One of the characters of the class in
    [re.sub('[\./\\-(){}\[\],%]', ' ', new_text)]. After the string escapes
    of Python the class reads [[\./\-(){}\[\],%]]. *)
Definition is_punctuation (c : ascii) : bool :=
  match c with
  | "." | "/" | "-" | "(" | ")" | "{" | "}" | "[" | "]" | "," | "%" => true
  | _ => false
  end%char.

Fixpoint blank_punctuation (s : string) : string :=
  match s with
  | EmptyString => EmptyString
  | String c s' =>
      String (if is_punctuation c then " "%char else c) (blank_punctuation s')
  end.

(** [new_text]: the sentence as the patterns see it. *)
Definition normalise (sent : string) : string := blank_punctuation (lower sent).

(** The local variables of [filter] that the scan of a document reads and
    writes. [nala_doc] is assigned at a match only, and keeps its value from
    one document to the next. [spans] records the [(start, end)] computed
    at each match, in order; [out] the pairs yielded so far. *)
Record scan := {
  positive_sentences : Z;
  found_in_sentence : bool;
  used_regexs : gmap string Z;
  nala_doc : option Document;
  spans : list (Z * Z);
  out : list item;
}.

Inductive outcome :=
| Returned                   (* the input sequence ended *)
| UnboundLocalError.         (* [nala_doc] read before any match assigned it *)

Section HighRecall.
Context {pattern : Type}.
(** [reg.search(text)] as a span, and [reg.pattern]. *)
Variable search : pattern → string → option (Z * Z).
Variable pattern_source : pattern → string.
(** [NLTKSplitter]: the sentences of a part's text. *)
Variable split_sentences : string → list string.
(** The copy of the document after the pipeline, the labeler, [crf.tag],
    [PostProcessing] and [ExclusiveNLDefiner]. *)
Variable nala_tag : Document → Document.
(** [nalaf]'s [Document.overlaps_with_mention(start, end, annotated=False)]. *)
Variable overlaps_with_mention : Document → Z → Z → option Entity.
(** [self.patterns] and [self.threshold]. *)
Variable patterns : list pattern.
Variable threshold : Q.

(** The body of [for i, reg in enumerate(self.patterns)]. *)
Definition scan_pattern (x : item) (data_nala : Document) (use_nala : bool)
    (part_offset sent_offset : Z) (new_text : string)
    (st : scan) (reg : pattern) : scan :=
  match search reg new_text with
  | None => st
  | Some (m_start, m_end) =>
      let start := part_offset + sent_offset + m_start in
      let end_ := part_offset + sent_offset + m_end in
      let hits := default 0 (used_regexs st !! pattern_source reg) + 1 in
      let first := negb (found_in_sentence st) in
      let corroborated :=
        if use_nala then
          match overlaps_with_mention data_nala start end_ with
          | Some mention =>
              (subclass mention >? 0) && Qle_bool (confidence mention) threshold
          | None => false
          end
        else false in
      {| positive_sentences :=
           if first then positive_sentences st + 1 else positive_sentences st;
         found_in_sentence := true;
         used_regexs := <[pattern_source reg := hits]> (used_regexs st);
         nala_doc := Some data_nala;
         spans := spans st ++ [(start, end_)];
         out := if corroborated then out st ++ [x] else out st |}
  end.

(** The body of [for sent in sentences], but for the advance of
    [sent_offset]. *)
Definition scan_sentence (x : item) (data_nala : Document) (use_nala : bool)
    (part_offset sent_offset : Z) (sent : string) (st : scan) : scan :=
  let new_text := normalise sent in
  let st0 := {| positive_sentences := positive_sentences st;
                found_in_sentence := false;
                used_regexs := used_regexs st;
                nala_doc := nala_doc st;
                spans := spans st;
                out := out st |} in
  let st1 := foldl (scan_pattern x data_nala use_nala part_offset sent_offset new_text)
                   st0 patterns in
  if found_in_sentence st1
  then {| positive_sentences := positive_sentences st1 + 1;
          found_in_sentence := true;
          used_regexs := used_regexs st1;
          nala_doc := nala_doc st1;
          spans := spans st1;
          out := out st1 |}
  else st1.

(** [for sent in sentences], from a given [sent_offset]: the state and the
    [sent_offset] it ends with. *)
Fixpoint scan_sentences (x : item) (data_nala : Document) (use_nala : bool)
    (part_offset sent_offset : Z) (sentences : list string) (st : scan)
  : Z * scan :=
  match sentences with
  | [] => (sent_offset, st)
  | sent :: rest =>
      let sent_length := Z.of_nat (String.length sent) in
      let st' := scan_sentence x data_nala use_nala part_offset sent_offset sent st in
      scan_sentences x data_nala use_nala part_offset
                     (sent_offset + (2 + sent_length)) rest st'
  end.

(** [for i, x in enumerate(doc.parts)], over the sentences of each part,
    from a given [part_offset]. *)
Fixpoint scan_parts (x : item) (data_nala : Document) (use_nala : bool)
    (part_offset : Z) (ps : list (list string)) (st : scan) : Z * scan :=
  match ps with
  | [] => (part_offset, st)
  | sentences :: rest =>
      let '(sent_offset, st') :=
        scan_sentences x data_nala use_nala part_offset 0 sentences st in
      scan_parts x data_nala use_nala (part_offset + sent_offset) rest st'
  end.

Definition sentences_of (doc : Document) : list (list string) :=
  (λ p : string * Part, split_sentences (part_text (snd p))) <$> parts doc.

(** The second [if use_nala:] block: [min_found] more for each predicted
    annotation of [nala_doc] with a positive subclass. *)
Definition corroboration_weight (min_found : Z) (nala : Document) : Z :=
  foldl (λ acc (p : string * Part),
           foldl (λ acc' ann, if subclass ann >? 0 then acc' + min_found else acc')
                 acc (predicted_annotations (snd p)))
        0 (parts nala).

(** The scan of one document, started with the [nala_doc] left by the
    documents before it. *)
Definition scan_document (x : item) (use_nala : bool) (carried : option Document)
  : scan :=
  let data_nala := if use_nala then nala_tag (snd x) else snd x in
  snd (scan_parts x data_nala use_nala 0 (sentences_of (snd x))
         {| positive_sentences := 0; found_in_sentence := false;
            used_regexs := ∅; nala_doc := carried; spans := []; out := [] |}).

(** [HighRecallRegexDocumentFilter.filter(documents, min_found, use_nala)]:
    the pairs yielded, in order, and how the generator ends. [carried] is
    the value of [nala_doc], unbound when the call starts. The timing
    statistics and the console output of the loop have no influence on
    what is yielded and are left out. *)
Fixpoint regex_filter_from (carried : option Document) (documents : list item)
    (min_found : Z) (use_nala : bool) : list item * outcome :=
  match documents with
  | [] => ([], Returned)
  | x :: rest =>
      let st := scan_document x use_nala carried in
      let total :=
        if use_nala then
          match nala_doc st with
          | Some nala => Some (positive_sentences st + corroboration_weight min_found nala)
          | None => None
          end
        else Some (positive_sentences st) in
      match total with
      | None => (out st, UnboundLocalError)
      | Some positive =>
          let '(later, how) := regex_filter_from (nala_doc st) rest min_found use_nala in
          (out st ++ (if positive >=? min_found then [x] else []) ++ later, how)
      end
  end.

Definition regex_filter (documents : list item) (min_found : Z) (use_nala : bool)
  : list item * outcome :=
  regex_filter_from None documents min_found use_nala.

End HighRecall.

(** *** Facts about the manual filters *)

(** A document without annotations, with one part per text, named
    [part0], [part1], ... *)
Definition text_document (texts : list string) : Document :=
  {| parts := imap (λ i t, ("part" +:+ pretty i,
                            {| part_text := t; annotations := [];
                               predicted_annotations := [] |})) texts |}.

Lemma ask_skips_unrecognized (yes_answers bad : list string) (inputs : list string) :
  Forall (λ line, recognized yes_answers (lower line) = false) bad →
  ask yes_answers (bad ++ inputs) = ask yes_answers inputs.
Proof.
  induction 1 as [|line bad Hline _ IH]; [reflexivity|].
  simpl. by rewrite Hline.
Qed.

Lemma ask_unrecognized_only (yes_answers bad : list string) :
  Forall (λ line, recognized yes_answers (lower line) = false) bad →
  ask yes_answers bad = None.
Proof.
  intros H. rewrite <- (app_nil_r bad). by rewrite ask_skips_unrecognized.
Qed.

(** A rejected id is never shown again, never yielded, and stays rejected. *)
Lemma manual_filter_rejected_stays (pmid : string) (documents : list item)
    (c : gmap string bool) (inputs : list string) :
  c !! pmid = Some false →
  (pmid ∉ prompted (manual_filter documents c inputs))
  ∧ (∀ doc, (pmid, doc) ∉ yielded (manual_filter documents c inputs))
  ∧ cache (manual_filter documents c inputs) !! pmid = Some false.
Proof.
  revert c inputs.
  induction documents as [|[id d] rest IH]; intros c inputs Hc; simpl.
  { split; [apply not_elem_of_nil|]. split; [|done]. intros doc. apply not_elem_of_nil. }
  destruct (c !! id) as [decision|] eqn:Hid.
  - destruct (IH c inputs Hc) as (Hp & Hy & Hk).
    destruct decision; [|done]. simpl.
    split; [done|]. split; [|done].
    intros doc [Heq|Hin]%elem_of_cons; [|by eapply Hy].
    injection Heq as -> ->. rewrite Hc in Hid. discriminate Hid.
  - assert (id ≠ pmid) as Hne by (intros ->; rewrite Hc in Hid; discriminate Hid).
    destruct inputs as [|answer inputs]; simpl.
    { split; [by intros ->%list_elem_of_singleton|].
      split; [|done]. intros doc. apply not_elem_of_nil. }
    assert (<[id := is_yes answer]> c !! pmid = Some false) as Hc'
      by by rewrite lookup_insert_ne.
    destruct (decide (lower answer = "s")); simpl.
    { split; [by intros ->%list_elem_of_singleton|].
      split; [|done]. intros doc. apply not_elem_of_nil. }
    destruct (IH _ inputs Hc') as (Hp & Hy & Hk).
    destruct (is_yes answer); simpl.
    + split; [by intros [->|?]%elem_of_cons|]. split; [|done].
      intros doc [Heq|Hin]%elem_of_cons; [congruence|by eapply Hy].
    + split; [by intros [->|?]%elem_of_cons|]. by split.
Qed.

(** C9. When the operator answers the stop token ['s'] for a document that
    is not in the cache, [ManualDocumentFilter] writes [False] for its id
    and ends the sequence; in any later run whose cache has that entry the
    document is neither shown to the operator nor yielded, and the entry
    stays. [ManualStatsDocumentFilter] ends on ['stop'] without touching
    the cache or its statistics. *)
Theorem manual_stop_caches_reject
    (pmid : string) (doc : Document) (rest : list item)
    (c : gmap string bool) (answer : string) (inputs : list string) :
  c !! pmid = None →
  lower answer = "s" →
  cache (manual_filter ((pmid, doc) :: rest) c (answer :: inputs))
    = <[pmid := false]> c
  ∧ ended (manual_filter ((pmid, doc) :: rest) c (answer :: inputs)) = Stopped
  ∧ yielded (manual_filter ((pmid, doc) :: rest) c (answer :: inputs)) = []
  ∧ (∀ documents' c' inputs',
       c' !! pmid = Some false →
       (pmid ∉ prompted (manual_filter documents' c' inputs'))
       ∧ (∀ doc', (pmid, doc') ∉ yielded (manual_filter documents' c' inputs'))
       ∧ cache (manual_filter documents' c' inputs') !! pmid = Some false)
  ∧ (∀ yes_answers st line,
       lower line = "stop" →
       cache (s_run (manual_stats_filter yes_answers ((pmid, doc) :: rest) c st
                       (line :: inputs))) = c
       ∧ ended (s_run (manual_stats_filter yes_answers ((pmid, doc) :: rest) c st
                         (line :: inputs))) = Stopped
       ∧ s_stats (manual_stats_filter yes_answers ((pmid, doc) :: rest) c st
                    (line :: inputs)) = st).
Proof.
  intros Hc Hs. simpl. rewrite Hc.
  assert (is_yes answer = false) as ->.
  { unfold is_yes. by rewrite Hs. }
  rewrite decide_True by done. simpl.
  repeat (split; [reflexivity|]). split.
  - intros documents' c' inputs'. apply manual_filter_rejected_stays.
  - intros yes_answers st line Hline. rewrite Hline.
    assert (recognized yes_answers "stop" = true) as ->.
    { unfold recognized. by rewrite orb_true_r. }
    by rewrite decide_True.
Qed.

Lemma manual_stop_caches_reject_witness :
  cache (manual_filter [("101", text_document ["a deletion"]); ("102", text_document [])]
           ∅ ["S"; "yes"])
    = <["101" := false]> ∅
  ∧ ended (manual_filter [("101", text_document ["a deletion"]); ("102", text_document [])]
             ∅ ["S"; "yes"]) = Stopped.
Proof.
  destruct (manual_stop_caches_reject "101" (text_document ["a deletion"])
              [("102", text_document [])] ∅ "S" ["yes"])
    as (Hcache & Hend & _); [apply lookup_empty|reflexivity|].
  split; [exact Hcache|exact Hend].
Defined.

(** C8 does not hold for [ManualDocumentFilter] as it is stated: the line
    ['maybe'] is no recognized answer, yet the filter records a reject for
    the document and asks nothing more; the ['yes'] typed next is never
    read. *)
Lemma manual_filter_records_malformed_answer :
  cache (manual_filter [("101", text_document ["a deletion"])] ∅ ["maybe"; "yes"])
    !! "101" = Some false
  ∧ console (manual_filter [("101", text_document ["a deletion"])] ∅ ["maybe"; "yes"])
    = ["yes"]
  ∧ prompted (manual_filter [("101", text_document ["a deletion"])] ∅ ["maybe"; "yes"])
    = ["101"].
Proof. by vm_compute. Qed.

(** C8, amended. [ManualStatsDocumentFilter] reads lines until one is a
    recognized answer (a yes answer, ['no'] or ['stop']): the lines before
    it change nothing, and when no recognized line comes the document gets
    no decision at all. [ManualDocumentFilter] reads exactly one line for a
    document that is not in the cache and records every answer other than
    ['yes'] and ['y'] as a reject. *)
Theorem manual_answers_handling
    (yes_answers : list string) (docid : string) (doc : Document)
    (rest : list item) (c : gmap string bool) (st : stats)
    (bad : list string) (good answer : string) (inputs : list string) :
  c !! docid = None →
  Forall (λ line, recognized yes_answers (lower line) = false) bad →
  recognized yes_answers (lower good) = true →
  is_yes answer = false →
  lower answer ≠ "s" →
  manual_stats_filter yes_answers ((docid, doc) :: rest) c st (bad ++ good :: inputs)
    = manual_stats_filter yes_answers ((docid, doc) :: rest) c st (good :: inputs)
  ∧ manual_stats_filter yes_answers ((docid, doc) :: rest) c st bad
    = {| s_run := {| yielded := []; cache := c; console := [];
                     prompted := [docid]; ended := EOFError |};
         s_stats := st |}
  ∧ manual_filter ((docid, doc) :: rest) c (answer :: inputs)
    = prompt docid (manual_filter rest (<[docid := false]> c) inputs).
Proof.
  intros Hc Hbad Hgood Hno Hs. split; [|split].
  - simpl. rewrite Hc. by rewrite ask_skips_unrecognized.
  - simpl. rewrite Hc. by rewrite ask_unrecognized_only.
  - simpl. rewrite Hc, Hno. by rewrite decide_False.
Qed.

Lemma manual_answers_handling_witness :
  manual_stats_filter ["yes"; "nl"] [("101", text_document ["a deletion"])] ∅
      {| answers := ∅; counter := initial_counter ["yes"; "nl"] |}
      (["maybe"; "y"] ++ "NL" :: ["no"])
    = manual_stats_filter ["yes"; "nl"] [("101", text_document ["a deletion"])] ∅
        {| answers := ∅; counter := initial_counter ["yes"; "nl"] |}
        ("NL" :: ["no"])
  ∧ manual_filter [("101", text_document ["a deletion"])] ∅ ("maybe" :: ["no"])
    = prompt "101" (manual_filter [] (<["101" := false]> ∅) ["no"]).
Proof.
  destruct (manual_answers_handling ["yes"; "nl"] "101" (text_document ["a deletion"])
              [] ∅ {| answers := ∅; counter := initial_counter ["yes"; "nl"] |}
              ["maybe"; "y"] "NL" "maybe" ["no"])
    as (Hstats & _ & Hmanual).
  - apply lookup_empty.
  - repeat constructor.
  - reflexivity.
  - reflexivity.
  - discriminate.
  - split; [exact Hstats|exact Hmanual].
Defined.

(** *** Facts about the scan of [HighRecallRegexDocumentFilter] *)

Section HighRecallFacts.
Context {pattern : Type}.
Variable search : pattern → string → option (Z * Z).
Variable pattern_source : pattern → string.
Variable split_sentences : string → list string.
Variable nala_tag : Document → Document.
Variable overlaps_with_mention : Document → Z → Z → option Entity.
Variable patterns : list pattern.
Variable threshold : Q.

(** The spans of the matches of [ps] in [new_text], moved by [shift]. *)
Definition hits (shift : Z) (new_text : string) (ps : list pattern) : list (Z * Z) :=
  omap (λ reg, match search reg new_text with
               | Some (m_start, m_end) => Some (shift + m_start, shift + m_end)
               | None => None
               end) ps.

(** Some pattern of [ps] matches in [new_text]. *)
Definition matched (new_text : string) (ps : list pattern) : bool :=
  existsb (λ reg, match search reg new_text with Some _ => true | None => false end) ps.

(** What [sent_offset] advances by over [sentences], and [part_offset] over
    the parts [ps]. *)
Definition consumed (sentences : list string) : Z :=
  foldr (λ sent acc, 2 + Z.of_nat (String.length sent) + acc) 0 sentences.

Definition consumed_parts (ps : list (list string)) : Z :=
  foldr (λ sentences acc, consumed sentences + acc) 0 ps.

(** The number of sentences in which at least one pattern matches. *)
Definition positive_count (sentences : list string) : Z :=
  foldr (λ sent acc, (if matched (normalise sent) patterns then 1 else 0) + acc)
        0 sentences.

Definition positive_count_parts (ps : list (list string)) : Z :=
  foldr (λ sentences acc, positive_count sentences + acc) 0 ps.

Abbreviation scan_pattern' := (scan_pattern search pattern_source overlaps_with_mention threshold).
Abbreviation scan_sentence' :=
  (scan_sentence search pattern_source overlaps_with_mention patterns threshold).
Abbreviation scan_sentences' :=
  (scan_sentences search pattern_source overlaps_with_mention patterns threshold).
Abbreviation scan_parts' :=
  (scan_parts search pattern_source overlaps_with_mention patterns threshold).

Lemma hits_cons (shift : Z) (new_text : string) (reg : pattern) (ps : list pattern) :
  hits shift new_text (reg :: ps) = hits shift new_text [reg] ++ hits shift new_text ps.
Proof. unfold hits. simpl. by destruct (search reg new_text) as [[??]|]. Qed.

Lemma matched_cons (new_text : string) (reg : pattern) (ps : list pattern) :
  matched new_text (reg :: ps) = matched new_text [reg] || matched new_text ps.
Proof. simpl. by rewrite orb_false_r. Qed.

Lemma scan_pattern_spec (x : item) (dn : Document) (un : bool) (po so : Z)
    (new_text : string) (reg : pattern) (st : scan) :
  let st' := scan_pattern' x dn un po so new_text st reg in
  spans st' = spans st ++ hits (po + so) new_text [reg]
  ∧ found_in_sentence st' = found_in_sentence st || matched new_text [reg]
  ∧ positive_sentences st'
    = positive_sentences st
      + (if negb (found_in_sentence st) && matched new_text [reg] then 1 else 0)
  ∧ (un = false → out st' = out st).
Proof.
  unfold scan_pattern, hits, matched. simpl.
  destruct (search reg new_text) as [[m_start m_end]|]; simpl.
  - rewrite orb_true_r. repeat split; [|by intros ->].
    destruct (found_in_sentence st); simpl; lia.
  - rewrite app_nil_r, orb_false_r, andb_false_r. repeat split. lia.
Qed.

Lemma scan_patterns_spec (x : item) (dn : Document) (un : bool) (po so : Z)
    (new_text : string) (ps : list pattern) (st : scan) :
  let st' := foldl (scan_pattern' x dn un po so new_text) st ps in
  spans st' = spans st ++ hits (po + so) new_text ps
  ∧ found_in_sentence st' = found_in_sentence st || matched new_text ps
  ∧ positive_sentences st'
    = positive_sentences st
      + (if negb (found_in_sentence st) && matched new_text ps then 1 else 0)
  ∧ (un = false → out st' = out st).
Proof.
  revert st. induction ps as [|reg ps IH]; intros st.
  { simpl. rewrite app_nil_r, orb_false_r, andb_false_r. repeat split; lia. }
  destruct (IH (scan_pattern' x dn un po so new_text st reg)) as (Hs & Hf & Hp & Ho).
  destruct (scan_pattern_spec x dn un po so new_text reg st) as (Hs1 & Hf1 & Hp1 & Ho1).
  cbv zeta in *. rewrite hits_cons, matched_cons.
  change (foldl (scan_pattern' x dn un po so new_text) st (reg :: ps))
    with (foldl (scan_pattern' x dn un po so new_text)
            (scan_pattern' x dn un po so new_text st reg) ps).
  rewrite Hs, Hf, Hp, Hs1, Hf1, Hp1. repeat split.
  - by rewrite List.app_assoc.
  - by rewrite orb_assoc.
  - destruct (found_in_sentence st), (matched new_text [reg]), (matched new_text ps);
      simpl; lia.
  - intros Hun. by rewrite Ho, Ho1.
Qed.

Lemma scan_sentence_spec (x : item) (dn : Document) (un : bool) (po so : Z)
    (sent : string) (st : scan) :
  let st' := scan_sentence' x dn un po so sent st in
  spans st' = spans st ++ hits (po + so) (normalise sent) patterns
  ∧ positive_sentences st'
    = positive_sentences st + 2 * (if matched (normalise sent) patterns then 1 else 0)
  ∧ (un = false → out st' = out st).
Proof.
  unfold scan_sentence.
  match goal with |- context [foldl ?f ?s0 patterns] =>
    destruct (scan_patterns_spec x dn un po so (normalise sent) patterns s0)
      as (Hs & Hf & Hp & Ho) end.
  simpl in *. rewrite Hf.
  destruct (matched (normalise sent) patterns); simpl.
  - rewrite Hs, Hp. repeat split; try done; lia.
  - rewrite Hs, Hp. repeat split; try done; lia.
Qed.

Lemma scan_sentences_app (x : item) (dn : Document) (un : bool) (po so : Z)
    (l1 l2 : list string) (st : scan) :
  scan_sentences' x dn un po so (l1 ++ l2) st
  = scan_sentences' x dn un po
      (fst (scan_sentences' x dn un po so l1 st)) l2
      (snd (scan_sentences' x dn un po so l1 st)).
Proof. revert so st. induction l1 as [|s l1 IH]; intros so st; simpl; [done|apply IH]. Qed.

Lemma scan_sentences_spec (x : item) (dn : Document) (un : bool) (po so : Z)
    (sentences : list string) (st : scan) :
  fst (scan_sentences' x dn un po so sentences st) = so + consumed sentences
  ∧ positive_sentences (snd (scan_sentences' x dn un po so sentences st))
    = positive_sentences st + 2 * positive_count sentences
  ∧ (∃ more, spans (snd (scan_sentences' x dn un po so sentences st))
             = spans st ++ more)
  ∧ (un = false → out (snd (scan_sentences' x dn un po so sentences st)) = out st).
Proof.
  revert so st. induction sentences as [|sent rest IH]; intros so st; simpl.
  { split; [lia|]. split; [lia|]. split; [|done]. exists []. by rewrite app_nil_r. }
  destruct (scan_sentence_spec x dn un po so sent st) as (Hs & Hp & Ho).
  destruct (IH (so + (2 + Z.of_nat (String.length sent)))
               (scan_sentence' x dn un po so sent st)) as (Hso & Hp' & [more Hs'] & Ho').
  rewrite Hso, Hp', Hs', Hs, Hp. split; [lia|]. split; [lia|]. split.
  - eexists. by rewrite <- List.app_assoc.
  - intros Hun. by rewrite Ho', Ho.
Qed.

Lemma scan_parts_app (x : item) (dn : Document) (un : bool) (po : Z)
    (l1 l2 : list (list string)) (st : scan) :
  scan_parts' x dn un po (l1 ++ l2) st
  = scan_parts' x dn un (fst (scan_parts' x dn un po l1 st)) l2
      (snd (scan_parts' x dn un po l1 st)).
Proof.
  revert po st. induction l1 as [|ss l1 IH]; intros po st; simpl; [done|].
  destruct (scan_sentences' x dn un po 0 ss st). apply IH.
Qed.

Lemma scan_parts_spec (x : item) (dn : Document) (un : bool) (po : Z)
    (ps : list (list string)) (st : scan) :
  fst (scan_parts' x dn un po ps st) = po + consumed_parts ps
  ∧ positive_sentences (snd (scan_parts' x dn un po ps st))
    = positive_sentences st + 2 * positive_count_parts ps
  ∧ (∃ more, spans (snd (scan_parts' x dn un po ps st)) = spans st ++ more)
  ∧ (un = false → out (snd (scan_parts' x dn un po ps st)) = out st).
Proof.
  revert po st. induction ps as [|ss rest IH]; intros po st; simpl.
  { split; [lia|]. split; [lia|]. split; [|done]. exists []. by rewrite app_nil_r. }
  pose proof (scan_sentences_spec x dn un po 0 ss st) as Hss.
  destruct (scan_sentences' x dn un po 0 ss st) as [so st'].
  simpl in Hss. destruct Hss as (Hso & Hp & [more Hs] & Ho).
  destruct (IH (po + so) st') as (Hpo & Hp' & [more' Hs'] & Ho').
  rewrite Hpo, Hp', Hs', Hs, Hp. split; [lia|]. split; [lia|]. split.
  - eexists. by rewrite <- List.app_assoc.
  - intros Hun. by rewrite Ho', Ho.
Qed.

(** The span reported for a match in sentence [sent] of a part: the match
    span moved by what the parts before it and the sentences before it in
    its part consumed. *)
Lemma scan_parts_spans (x : item) (dn : Document) (un : bool)
    (pre post : list (list string)) (spre spost : list string) (sent : string)
    (st : scan) :
  ∃ after,
    spans (snd (scan_parts' x dn un 0 (pre ++ (spre ++ sent :: spost) :: post) st))
    = spans (snd (scan_parts' x dn un 0 (pre ++ [spre]) st))
      ++ hits (consumed_parts pre + consumed spre) (normalise sent) patterns
      ++ after.
Proof.
  rewrite !scan_parts_app.
  destruct (scan_parts_spec x dn un 0 pre st) as (Hpo & _).
  destruct (scan_parts' x dn un 0 pre st) as [po st1]. simpl in Hpo. simpl.
  rewrite scan_sentences_app.
  destruct (scan_sentences_spec x dn un po 0 spre st1) as (Hso & _).
  destruct (scan_sentences' x dn un po 0 spre st1) as [so st2]. simpl in Hso. simpl.
  destruct (scan_sentence_spec x dn un po so sent st2) as (Hs & _).
  set (st3 := scan_sentence' x dn un po so sent st2) in *.
  destruct (scan_sentences_spec x dn un po (so + (2 + Z.of_nat (String.length sent)))
              spost st3) as (_ & _ & [more Hmore] & _).
  destruct (scan_sentences' x dn un po (so + (2 + Z.of_nat (String.length sent)))
              spost st3) as [so' st4]. simpl in Hmore.
  destruct (scan_parts_spec x dn un (po + so') post st4) as (_ & _ & [more' Hmore'] & _).
  rewrite Hmore', Hmore, Hs. exists (more ++ more').
  replace (po + so) with (consumed_parts pre + consumed spre) by lia.
  by rewrite <- !List.app_assoc.
Qed.

Abbreviation scan_document' :=
  (scan_document search pattern_source split_sentences nala_tag overlaps_with_mention
     patterns threshold).
Abbreviation regex_filter_from' :=
  (regex_filter_from search pattern_source split_sentences nala_tag
     overlaps_with_mention patterns threshold).

(** Every sentence in which a pattern matches adds 2 to
    [positive_sentences]: 1 at its first match and 1 more after the loop
    over the patterns. *)
Lemma scan_document_positive_sentences (x : item) (use_nala : bool)
    (carried : option Document) :
  positive_sentences (scan_document' x use_nala carried)
  = 2 * positive_count_parts (sentences_of split_sentences (snd x)).
Proof.
  unfold scan_document.
  match goal with |- context [scan_parts _ _ _ _ _ ?a ?dn ?un ?po ?ps ?st] =>
    destruct (scan_parts_spec a dn un po ps st) as (_ & Hp & _) end.
  rewrite Hp. simpl. lia.
Qed.

Lemma scan_document_out_without_nala (x : item) (carried : option Document) :
  out (scan_document' x false carried) = [].
Proof.
  unfold scan_document.
  match goal with |- context [scan_parts _ _ _ _ _ ?a ?dn ?un ?po ?ps ?st] =>
    destruct (scan_parts_spec a dn un po ps st) as (_ & _ & _ & Ho) end.
  by rewrite Ho.
Qed.

(** Without model corroboration the filter yields a subsequence of its
    input and always returns: the document is accepted when twice the
    number of its positive sentences reaches [min_found]. *)
Lemma regex_filter_without_nala (carried : option Document) (documents : list item)
    (min_found : Z) :
  regex_filter_from' carried documents min_found false
  = (List.filter
       (λ x, 2 * positive_count_parts (sentences_of split_sentences (snd x))
             >=? min_found)
       documents,
     Returned).
Proof.
  revert carried. induction documents as [|x rest IH]; intros carried; [done|].
  simpl. rewrite IH, scan_document_out_without_nala,
    scan_document_positive_sentences. simpl.
  by destruct (_ >=? _).
Qed.

Lemma regex_filter_sublist_without_nala (carried : option Document)
    (documents : list item) (min_found : Z) :
  fst (regex_filter_from' carried documents min_found false) `sublist_of` documents.
Proof.
  rewrite regex_filter_without_nala. simpl.
  induction documents as [|x rest IH]; simpl; [done|].
  destruct (_ >=? _); by constructor.
Qed.

End HighRecallFacts.

(** *** The filters and the order of their input *)

Lemma stub_filter_sublist (documents : list item) :
  stub_filter documents `sublist_of` documents.
Proof. done. Qed.

Lemma keywords_filter_sublist {pattern : Type} (search : pattern → string → option (Z * Z))
    (documents : list item) (keywords : list pattern) :
  fst (keywords_filter search documents keywords) `sublist_of` documents.
Proof.
  revert keywords. induction documents as [|[pmid doc] rest IH]; intros keywords; [done|].
  simpl. destruct (any_part search (parts doc) keywords) as [[|] remaining].
  - specialize (IH remaining).
    destruct (keywords_filter search rest remaining). by constructor.
  - by constructor.
Qed.

(** Once the generator of keywords is used up, nothing is accepted. *)
Lemma keywords_filter_exhausted {pattern : Type}
    (search : pattern → string → option (Z * Z)) (documents : list item) :
  keywords_filter search documents [] = ([], []).
Proof.
  induction documents as [|[pmid doc] rest IH]; [done|].
  simpl. assert (any_part search (parts doc) [] = (false, [])) as ->; [|done].
  induction (parts doc) as [|[name part] ps IHp]; [done|]. simpl. apply IHp.
Qed.

Lemma manual_filter_sublist (documents : list item) (c : gmap string bool)
    (inputs : list string) :
  yielded (manual_filter documents c inputs) `sublist_of` documents.
Proof.
  revert c inputs. induction documents as [|[pmid doc] rest IH]; intros c inputs; [done|].
  simpl. destruct (c !! pmid) as [[|]|].
  - simpl. by constructor.
  - by constructor.
  - destruct inputs as [|answer inputs]; [apply sublist_nil_l|].
    destruct (decide (lower answer = "s")); [apply sublist_nil_l|].
    destruct (is_yes answer); simpl; by constructor.
Qed.

Lemma manual_stats_filter_sublist (yes_answers : list string) (documents : list item)
    (c : gmap string bool) (st : stats) (inputs : list string) :
  yielded (s_run (manual_stats_filter yes_answers documents c st inputs))
    `sublist_of` documents.
Proof.
  revert c st inputs.
  induction documents as [|[docid doc] rest IH]; intros c st inputs; [done|].
  simpl. destruct (c !! docid) as [[|]|].
  - simpl. by constructor.
  - by constructor.
  - destruct (ask yes_answers inputs) as [[answer inputs']|]; [|apply sublist_nil_l].
    destruct (decide (answer = "stop")); [apply sublist_nil_l|].
    destruct (bool_decide (answer ∈ yes_answers)); simpl; by constructor.
Qed.

(** *** Concrete runs *)

(** The sentence splitter of the runs: the part ["AA. BB"] has the two
    sentences of the design document, any other text is one sentence. *)
Definition example_split (text : string) : list string :=
  if decide (text = "AA. BB") then ["AA"; "BB"] else [text].

(** A stand-in for the tagger: one prediction of subclass 1 and confidence
    1/2 on ["deletion"] at offset 2 of every part. *)
Definition example_mention : Entity :=
  {| class_id := "e_2"; offset := 2; text := "deletion"; subclass := 1;
     confidence := 1 # 2 |}.

Definition example_tagger (doc : Document) : Document :=
  {| parts := (λ p : string * Part,
                 (fst p, {| part_text := part_text (snd p);
                            annotations := annotations (snd p);
                            predicted_annotations := [example_mention] |}))
              <$> parts doc |}.

(** A stand-in for [overlaps_with_mention(start, end, annotated=False)]:
    the first predicted annotation whose span meets [(start, end)], with
    the offsets of a part moved by the length of the parts before it. *)
Fixpoint overlaps_in_parts (ps : list (string * Part)) (shift start end_ : Z)
  : option Entity :=
  match ps with
  | [] => None
  | (_, part) :: rest =>
      match List.find (λ ann, (start <? offset ann + shift
                                         + Z.of_nat (String.length (text ann)))
                              && (offset ann + shift <=? end_))
                      (predicted_annotations part) with
      | Some ann => Some ann
      | None =>
          overlaps_in_parts rest (shift + Z.of_nat (String.length (part_text part)))
                            start end_
      end
  end.

Definition example_overlaps (doc : Document) (start end_ : Z) : option Entity :=
  overlaps_in_parts (parts doc) 0 start end_.

Definition deletion_item : item := ("7", text_document ["a deletion of exon 2"]).

(** C2. The pair is yielded twice by [HighRecallRegexDocumentFilter] with
    model corroboration: once at the match that the model corroborates
    and once more at the end of the scan. The output is no subsequence of
    the input. *)
Theorem regex_filter_yields_document_twice :
  regex_filter Regex.search Regex.source example_split example_tagger
      example_overlaps [Regex.lit "deletion"] 1 [deletion_item] 1 true
    = ([deletion_item; deletion_item], Returned)
  ∧ ¬ [deletion_item; deletion_item] `sublist_of` [deletion_item].
Proof.
  split; [by vm_compute|].
  intros H%sublist_length. simpl in H. lia.
Qed.

(** C3. One sentence, in which two patterns match, counts as two positive
    sentences: with [min_found = 2] the document is accepted on a single
    positive sentence. *)
Theorem regex_filter_counts_sentence_twice :
  positive_sentences
      (scan_document Regex.search Regex.source example_split example_tagger
         example_overlaps [Regex.lit "deletion"; Regex.lit "exon"] 1
         deletion_item false None) = 2
  ∧ positive_count_parts Regex.search [Regex.lit "deletion"; Regex.lit "exon"]
      (sentences_of example_split (snd deletion_item)) = 1
  ∧ regex_filter Regex.search Regex.source example_split example_tagger
      example_overlaps [Regex.lit "deletion"; Regex.lit "exon"] 1
      [deletion_item] 2 false
    = ([deletion_item], Returned).
Proof. by vm_compute. Qed.

Definition mutation_item (pmid : string) : item :=
  (pmid, text_document ["A missense mutation was found."]).

(** C7. The second of two documents with the same text is dropped: the
    first one used up the generator of keywords as far as [mutat\w*], the
    second one finds the rest of it without a match and leaves it empty.
    Alone, the same document is yielded. A document whose second part has
    the keyword is dropped as well, after its first part used up the
    generator. *)
Theorem keywords_filter_consumes_its_keywords :
  keywords_filter Regex.search [mutation_item "1"; mutation_item "2"] default_keywords
    = ([mutation_item "1"], [])
  ∧ fst (keywords_filter Regex.search [mutation_item "2"] default_keywords)
    = [mutation_item "2"]
  ∧ contains_keyword Regex.search default_keywords
      (text_document ["Methods."; "A missense mutation was found."]) = true
  ∧ fst (keywords_filter Regex.search
           [("3", text_document ["Methods."; "A missense mutation was found."])]
           default_keywords) = [].
Proof. by vm_compute. Qed.

Definition aa_bb_item : item := ("1", text_document ["AA. BB"]).

(** C6. The span reported for a match is the span of the match in the
    sentence moved by [part_offset + sent_offset], where [sent_offset] is
    the sum of [2 + len(sentence)] over the sentences before it in its
    part and [part_offset] the sum of the same over all sentences of the
    parts before: the spans of a document are those of the sentences
    before, then the moved spans of the sentence, then the spans of what
    follows. For the part ["AA. BB"] with the sentences ["AA"] and ["BB"],
    the pattern that matches the second sentence reports [(4, 6)], and
    characters 4 to 6 of the part are ["BB"]. *)
Theorem regex_span_offsets {pattern : Type}
    (search : pattern → string → option (Z * Z)) (pattern_source : pattern → string)
    (split_sentences : string → list string) (nala_tag : Document → Document)
    (overlaps_with_mention : Document → Z → Z → option Entity)
    (patterns : list pattern) (threshold : Q)
    (x : item) (use_nala : bool) (carried : option Document)
    (pre post : list (list string)) (spre spost : list string) (sent : string) :
  sentences_of split_sentences (snd x) = pre ++ (spre ++ sent :: spost) :: post →
  (∃ after,
     spans (scan_document search pattern_source split_sentences nala_tag
              overlaps_with_mention patterns threshold x use_nala carried)
     = spans (snd (scan_parts search pattern_source overlaps_with_mention patterns
                     threshold x (if use_nala then nala_tag (snd x) else snd x)
                     use_nala 0 (pre ++ [spre])
                     {| positive_sentences := 0; found_in_sentence := false;
                        used_regexs := ∅; nala_doc := carried; spans := [];
                        out := [] |}))
       ++ hits search (consumed_parts pre + consumed spre) (normalise sent) patterns
       ++ after)
  ∧ spans (scan_document Regex.search Regex.source example_split example_tagger
             example_overlaps [Regex.lit "bb"] 1 aa_bb_item false None)
    = [(4, 6)]
  ∧ String.substring (Z.to_nat 4) (Z.to_nat (6 - 4)) "AA. BB" = "BB".
Proof.
  intros Hsplit. split; [|by vm_compute].
  unfold scan_document. rewrite Hsplit. apply scan_parts_spans.
Qed.

Lemma regex_span_offsets_witness :
  (∃ after,
     spans (scan_document Regex.search Regex.source example_split example_tagger
              example_overlaps [Regex.lit "bb"] 1 aa_bb_item false None)
     = spans (snd (scan_parts Regex.search Regex.source example_overlaps
                     [Regex.lit "bb"] 1 aa_bb_item (snd aa_bb_item) false 0
                     ([] ++ [["AA"]])
                     {| positive_sentences := 0; found_in_sentence := false;
                        used_regexs := ∅; nala_doc := None; spans := [];
                        out := [] |}))
       ++ hits Regex.search (consumed_parts [] + consumed ["AA"]) (normalise "BB")
            [Regex.lit "bb"]
       ++ after)
  ∧ spans (scan_document Regex.search Regex.source example_split example_tagger
             example_overlaps [Regex.lit "bb"] 1 aa_bb_item false None)
    = [(4, 6)]
  ∧ String.substring (Z.to_nat 4) (Z.to_nat (6 - 4)) "AA. BB" = "BB".
Proof.
  apply (regex_span_offsets Regex.search Regex.source example_split example_tagger
           example_overlaps [Regex.lit "bb"] 1 aa_bb_item false None
           [] [] ["AA"] [] "BB").
  reflexivity.
Defined.

End Filters.


(** ** [Iteration.evaluation]: the table of matched annotations *)

Module Evaluation.
Import Data.

(** [Entity(class_id='e_2', offset=-1, text='')], the empty entity that
    stands for a missing partner. *)
Definition sentinel : Entity :=
  {| class_id := "e_2"; offset := -1; text := ""; subclass := 0; confidence := 1 |}.

(** nalaf's [Entity.__eq__] under [equality_operator =
    'exact_or_overlapping']: same class, and same span or meeting spans.
    The statements below hold for any equality; the concrete runs use this
    one. *)
Definition exact_or_overlapping (a b : Entity) : bool :=
  bool_decide (class_id a = class_id b)
  && ((bool_decide (offset a = offset b) && bool_decide (text a = text b))
      || ((offset a <? offset b + Z.of_nat (String.length (text b)))
          && (offset b <? offset a + Z.of_nat (String.length (text a))))).

Section Matching.
(** [ann == pred] *)
Variable entity_eq : Entity → Entity → bool.

(** [if x in pool: index = pool.index(x); del pool[index]]: the first
    element that compares equal to [x] leaves the pool. Python compares
    identities before it calls [==]; an entity equals itself under the
    equality of nalaf, so [==] decides alone. *)
Fixpoint remove_first (x : Entity) (pool : list Entity) : list Entity :=
  match pool with
  | [] => []
  | e :: pool' => if entity_eq x e then pool' else e :: remove_first x pool'
  end.

Record matching := {
  results : list (Entity * Entity);
  not_found_ann : list Entity;
  not_found_pred : list Entity;
}.

(** The body of [for ann, pred in product(...)]. *)
Definition match_pair (m : matching) (pair : Entity * Entity) : matching :=
  let '(ann, pred) := pair in
  if entity_eq ann pred
  then {| results := results m ++ [(ann, pred)];
          not_found_ann := remove_first ann (not_found_ann m);
          not_found_pred := remove_first pred (not_found_pred m) |}
  else m.

(** The body of [for part in self.reviewed.parts()]: what the part adds to
    [results]. *)
Definition evaluation_part (part : Part) : list (Entity * Entity) :=
  let m := foldl match_pair
                 {| results := [];
                    not_found_ann := annotations part;
                    not_found_pred := predicted_annotations part |}
                 (list_prod (annotations part) (predicted_annotations part)) in
  results m
  ++ ((λ ann, (ann, sentinel)) <$> not_found_ann m)
  ++ ((λ pred, (sentinel, pred)) <$> not_found_pred m).

(** [results] at the end of the loop over the parts. *)
Definition evaluation (reviewed : list Part) : list (Entity * Entity) :=
  flat_map evaluation_part reviewed.

(** The gold annotations without an equal prediction, and the predictions
    without an equal gold annotation. *)
Definition unmatched_gold (part : Part) : list Entity :=
  List.filter (λ ann, negb (existsb (λ pred, entity_eq ann pred) (predicted_annotations part)))
              (annotations part).

Definition unmatched_pred (part : Part) : list Entity :=
  List.filter (λ pred, negb (existsb (λ ann, entity_eq ann pred) (annotations part)))
              (predicted_annotations part).

Definition equal_pair (pair : Entity * Entity) : bool := entity_eq (fst pair) (snd pair).

(** The pairs of the cartesian product that compare equal, in the order of
    the product. *)
Definition equal_pairs (part : Part) : list (Entity * Entity) :=
  List.filter equal_pair (list_prod (annotations part) (predicted_annotations part)).

(** The gold annotations left when, for each equal pair in turn, the first
    one equal to the gold side of the pair has been taken out; and the
    same for the predictions. *)
Definition left_gold (part : Part) : list Entity :=
  foldl (λ pool pair, remove_first (fst pair) pool) (annotations part) (equal_pairs part).

Definition left_pred (part : Part) : list Entity :=
  foldl (λ pool pair, remove_first (snd pair) pool) (predicted_annotations part)
        (equal_pairs part).

(** No two entities of the list compare equal, and each one equals
    itself. *)
Definition separate (l : list Entity) : Prop :=
  NoDup l ∧ ∀ a b, a ∈ l → b ∈ l → entity_eq a b = true ↔ a = b.

(** *** Facts *)

Lemma foldl_match_pair_results (pairs : list (Entity * Entity)) (m : matching) :
  results (foldl match_pair m pairs) = results m ++ List.filter equal_pair pairs.
Proof.
  revert m. induction pairs as [|[ann pred] pairs IH]; intros m; simpl.
  { by rewrite app_nil_r. }
  rewrite IH. unfold equal_pair at 2. simpl.
  destruct (entity_eq ann pred); simpl; [|done].
  by rewrite <- List.app_assoc.
Qed.

Lemma foldl_match_pair_left (pairs : list (Entity * Entity)) (m : matching) :
  not_found_ann (foldl match_pair m pairs)
  = foldl (λ pool pair, remove_first (fst pair) pool) (not_found_ann m)
      (List.filter equal_pair pairs)
  ∧ not_found_pred (foldl match_pair m pairs)
    = foldl (λ pool pair, remove_first (snd pair) pool) (not_found_pred m)
        (List.filter equal_pair pairs).
Proof.
  revert m. induction pairs as [|[ann pred] pairs IH]; intros m; [done|].
  change (foldl match_pair m ((ann, pred) :: pairs))
    with (foldl match_pair (match_pair m (ann, pred)) pairs).
  destruct (IH (match_pair m (ann, pred))) as [-> ->].
  assert (List.filter equal_pair ((ann, pred) :: pairs)
          = if entity_eq ann pred then (ann, pred) :: List.filter equal_pair pairs
            else List.filter equal_pair pairs) as -> by done.
  unfold match_pair. destruct (entity_eq ann pred); split; reflexivity.
Qed.

Lemma filter_all (f : Entity → bool) (l : list Entity) :
  (∀ e, e ∈ l → f e = true) → List.filter f l = l.
Proof.
  induction l as [|e l IH]; intros H; simpl; [done|].
  rewrite H by left. rewrite IH; [done|]. intros e' He'. apply H. by right.
Qed.

(** In a pool without duplicates where only [x] itself can equal [x],
    removing the first element equal to [x] removes [x]. *)
Lemma remove_first_filter (x : Entity) (pool : list Entity) :
  NoDup pool →
  (∀ e, e ∈ pool → entity_eq x e = true ↔ x = e) →
  remove_first x pool = List.filter (λ e, negb (entity_eq x e)) pool.
Proof.
  induction pool as [|e pool IH]; intros Hnd Hsep; simpl; [done|].
  apply NoDup_cons in Hnd as [Hnotin Hnd].
  destruct (entity_eq x e) eqn:Hxe; simpl.
  - apply Hsep in Hxe; [|by left]. subst e.
    symmetry. apply filter_all. intros e He.
    destruct (entity_eq x e) eqn:Hxe'; [|done].
    apply Hsep in Hxe'; [|by right]. by subst e.
  - f_equal. apply IH; [done|]. intros e' He'. apply Hsep. by right.
Qed.

Lemma filter_filter (f g : Entity → bool) (l : list Entity) :
  List.filter f (List.filter g l) = List.filter (λ e, g e && f e) l.
Proof.
  induction l as [|e l IH]; simpl; [done|].
  destruct (g e); simpl; [|done]. destruct (f e); by rewrite IH.
Qed.

Lemma NoDup_list_filter (f : Entity → bool) (l : list Entity) :
  NoDup l → NoDup (List.filter f l).
Proof.
  induction 1 as [|e l Hnotin Hnd IH]; simpl; [constructor|].
  destruct (f e); [|done]. constructor; [|done].
  intros [Hin _]%list_elem_of_In%filter_In. by apply Hnotin, list_elem_of_In.
Qed.

Definition gold_hit (pairs : list (Entity * Entity)) (e : Entity) : bool :=
  existsb (λ pair, equal_pair pair && entity_eq (fst pair) e) pairs.

Definition pred_hit (pairs : list (Entity * Entity)) (e : Entity) : bool :=
  existsb (λ pair, equal_pair pair && entity_eq (snd pair) e) pairs.

Lemma foldl_match_pair_pools (anns preds : list Entity)
    (pairs : list (Entity * Entity)) (m : matching) :
  separate anns → separate preds →
  (∀ pair, pair ∈ pairs → fst pair ∈ anns ∧ snd pair ∈ preds) →
  NoDup (not_found_ann m) → (∀ e, e ∈ not_found_ann m → e ∈ anns) →
  NoDup (not_found_pred m) → (∀ e, e ∈ not_found_pred m → e ∈ preds) →
  not_found_ann (foldl match_pair m pairs)
  = List.filter (λ e, negb (gold_hit pairs e)) (not_found_ann m)
  ∧ not_found_pred (foldl match_pair m pairs)
    = List.filter (λ e, negb (pred_hit pairs e)) (not_found_pred m).
Proof.
  intros [_ Ha] [_ Hp]. revert m.
  induction pairs as [|[ann pred] pairs IH]; intros m Hin Hnda Hsuba Hndp Hsubp.
  { split; symmetry; by apply filter_all. }
  change (foldl match_pair m ((ann, pred) :: pairs))
    with (foldl match_pair (match_pair m (ann, pred)) pairs).
  destruct (Hin (ann, pred)) as [Hann Hpred]; [by left|]. simpl in Hann, Hpred.
  assert (∀ pair, pair ∈ pairs → fst pair ∈ anns ∧ snd pair ∈ preds) as Hin'
    by (intros pair Hpair; apply Hin; by right).
  assert (∀ e, gold_hit ((ann, pred) :: pairs) e
               = (entity_eq ann pred && entity_eq ann e) || gold_hit pairs e)
    as Hgold by done.
  assert (∀ e, pred_hit ((ann, pred) :: pairs) e
               = (entity_eq ann pred && entity_eq pred e) || pred_hit pairs e)
    as Hpred_hit by done.
  destruct (entity_eq ann pred) eqn:Heq.
  - assert (match_pair m (ann, pred)
            = {| results := results m ++ [(ann, pred)];
                 not_found_ann := remove_first ann (not_found_ann m);
                 not_found_pred := remove_first pred (not_found_pred m) |}) as ->
      by (unfold match_pair; by rewrite Heq).
    assert (remove_first ann (not_found_ann m)
            = List.filter (λ e, negb (entity_eq ann e)) (not_found_ann m)) as Hra.
    { apply remove_first_filter; [done|]. intros e He. apply Ha; auto. }
    assert (remove_first pred (not_found_pred m)
            = List.filter (λ e, negb (entity_eq pred e)) (not_found_pred m)) as Hrp.
    { apply remove_first_filter; [done|]. intros e He. apply Hp; auto. }
    destruct (IH {| results := results m ++ [(ann, pred)];
                    not_found_ann := remove_first ann (not_found_ann m);
                    not_found_pred := remove_first pred (not_found_pred m) |})
      as [-> ->]; simpl; try done.
    + rewrite Hra. by apply NoDup_list_filter.
    + rewrite Hra. intros e [He _]%list_elem_of_In%filter_In.
      apply Hsuba. by apply list_elem_of_In.
    + rewrite Hrp. by apply NoDup_list_filter.
    + rewrite Hrp. intros e [He _]%list_elem_of_In%filter_In.
      apply Hsubp. by apply list_elem_of_In.
    + rewrite Hra, Hrp, !filter_filter.
      split; apply filter_ext; intros e.
      * unfold equal_pair. simpl. rewrite Heq. simpl. by rewrite negb_orb.
      * unfold equal_pair. simpl. rewrite Heq. simpl. by rewrite negb_orb.
  - assert (match_pair m (ann, pred) = m) as ->
      by (unfold match_pair; by rewrite Heq).
    destruct (IH m) as [-> ->]; try done.
    split; apply filter_ext; intros e.
    + by rewrite Hgold.
    + by rewrite Hpred_hit.
Qed.

Lemma gold_hit_product (anns preds : list Entity) (e : Entity) :
  separate anns → e ∈ anns →
  gold_hit (list_prod anns preds) e = existsb (λ pred, entity_eq e pred) preds.
Proof.
  intros [_ Ha] He. apply eq_true_iff_eq.
  unfold gold_hit. rewrite !existsb_exists. split.
  - intros ([a p] & Hin & Hb). apply in_prod_iff in Hin as [Hina Hinp].
    apply andb_true_iff in Hb as [Hap Hae]. unfold equal_pair in Hap. simpl in *.
    apply Ha in Hae; [|by apply list_elem_of_In|done]. subst a. eauto.
  - intros (p & Hinp & Hep). exists (e, p). split.
    + apply in_prod_iff. split; [by apply list_elem_of_In|done].
    + unfold equal_pair. simpl. rewrite Hep. simpl. by apply Ha.
Qed.

Lemma pred_hit_product (anns preds : list Entity) (e : Entity) :
  separate preds → e ∈ preds →
  pred_hit (list_prod anns preds) e = existsb (λ ann, entity_eq ann e) anns.
Proof.
  intros [_ Hp] He. apply eq_true_iff_eq.
  unfold pred_hit. rewrite !existsb_exists. split.
  - intros ([a p] & Hin & Hb). apply in_prod_iff in Hin as [Hina Hinp].
    apply andb_true_iff in Hb as [Hap Hpe]. unfold equal_pair in Hap. simpl in *.
    apply Hp in Hpe; [|by apply list_elem_of_In|done]. subst p. eauto.
  - intros (a & Hina & Hae). exists (a, e). split.
    + apply in_prod_iff. split; [done|by apply list_elem_of_In].
    + unfold equal_pair. simpl. rewrite Hae. simpl. by apply Hp.
Qed.

(** The same as a check that runs: every entity equals itself and no
    other entity of the list, in either direction. *)
Fixpoint distinct_entities (l : list Entity) : bool :=
  match l with
  | [] => true
  | a :: l' =>
      entity_eq a a
      && forallb (λ b, negb (entity_eq a b) && negb (entity_eq b a)) l'
      && distinct_entities l'
  end.

Lemma distinct_entities_separate (l : list Entity) :
  distinct_entities l = true → separate l.
Proof.
  induction l as [|a l IH]; simpl.
  { intros _. split; [constructor|]. intros a b Ha. by apply elem_of_nil in Ha. }
  intros [[Hrefl Hall]%andb_true_iff Hrest]%andb_true_iff.
  destruct (IH Hrest) as [Hnd Hiff].
  assert (∀ b, b ∈ l → entity_eq a b = false ∧ entity_eq b a = false) as Hother.
  { intros b Hb%list_elem_of_In. rewrite forallb_forall in Hall.
    apply Hall in Hb. apply andb_true_iff in Hb as [H1 H2].
    by apply negb_true_iff in H1, H2. }
  assert (a ∉ l) as Hnotin.
  { intros Ha. destruct (Hother a Ha) as [H _]. congruence. }
  split; [by constructor|].
  intros x y [->|Hx]%elem_of_cons [->|Hy]%elem_of_cons.
  - done.
  - destruct (Hother y Hy) as [H _]. rewrite H. split; [done|]. by intros ->.
  - destruct (Hother x Hx) as [_ H]. rewrite H. split; [done|]. by intros ->.
  - by apply Hiff.
Qed.

(** With entities that equal only themselves in each list, the pools left
    after the product are the gold annotations without an equal prediction
    and the predictions without an equal gold annotation. *)
Lemma evaluation_part_pools (part : Part) :
  separate (annotations part) → separate (predicted_annotations part) →
  evaluation_part part
  = List.filter equal_pair (list_prod (annotations part) (predicted_annotations part))
    ++ ((λ ann, (ann, sentinel)) <$> unmatched_gold part)
    ++ ((λ pred, (sentinel, pred)) <$> unmatched_pred part).
Proof.
  intros Ha Hp. unfold evaluation_part.
  rewrite foldl_match_pair_results. simpl.
  destruct (foldl_match_pair_pools (annotations part) (predicted_annotations part)
              (list_prod (annotations part) (predicted_annotations part))
              {| results := []; not_found_ann := annotations part;
                 not_found_pred := predicted_annotations part |})
    as [-> ->]; simpl; try done; try apply Ha; try apply Hp.
  { intros [a p] Hin%list_elem_of_In%in_prod_iff. simpl.
    split; apply list_elem_of_In; tauto. }
  unfold unmatched_gold, unmatched_pred. do 2 f_equal.
  - f_equal. apply filter_ext_in. intros e He%list_elem_of_In.
    by rewrite gold_hit_product.
  - f_equal. apply filter_ext_in. intros e He%list_elem_of_In.
    by rewrite pred_hit_product.
Qed.

Lemma evaluation_part_left (part : Part) :
  evaluation_part part
  = equal_pairs part
    ++ ((λ ann, (ann, sentinel)) <$> left_gold part)
    ++ ((λ pred, (sentinel, pred)) <$> left_pred part).
Proof.
  unfold evaluation_part, left_gold, left_pred, equal_pairs.
  rewrite foldl_match_pair_results.
  destruct (foldl_match_pair_left
              (list_prod (annotations part) (predicted_annotations part))
              {| results := []; not_found_ann := annotations part;
                 not_found_pred := predicted_annotations part |}) as [-> ->].
  done.
Qed.

Lemma left_pools_unmatched (part : Part) :
  separate (annotations part) → separate (predicted_annotations part) →
  left_gold part = unmatched_gold part ∧ left_pred part = unmatched_pred part.
Proof.
  intros Ha Hp. unfold left_gold, left_pred, equal_pairs.
  destruct (foldl_match_pair_left
              (list_prod (annotations part) (predicted_annotations part))
              {| results := []; not_found_ann := annotations part;
                 not_found_pred := predicted_annotations part |}) as [Hg Hq].
  simpl in Hg, Hq. rewrite <- Hg, <- Hq.
  destruct (foldl_match_pair_pools (annotations part) (predicted_annotations part)
              (list_prod (annotations part) (predicted_annotations part))
              {| results := []; not_found_ann := annotations part;
                 not_found_pred := predicted_annotations part |})
    as [-> ->]; simpl; try done; try apply Ha; try apply Hp.
  { intros [a p] Hin%list_elem_of_In%in_prod_iff. simpl.
    split; apply list_elem_of_In; tauto. }
  unfold unmatched_gold, unmatched_pred. split.
  - apply filter_ext_in. intros e He%list_elem_of_In.
    by rewrite gold_hit_product.
  - apply filter_ext_in. intros e He%list_elem_of_In.
    by rewrite pred_hit_product.
Qed.

End Matching.

(** *** Concrete runs *)

Definition mention (start : Z) (t : string) : Entity :=
  {| class_id := "e_2"; offset := start; text := t; subclass := 0; confidence := 1 |}.

(** One gold annotation and two predictions that both overlap it. *)
Definition two_predictions_part : Part :=
  {| part_text := "the V600E mutation";
     annotations := [mention 4 "V600E"];
     predicted_annotations := [mention 4 "V600E"; mention 6 "00E mutation"] |}.

(** C4 does not hold as it is stated: the gold annotation is recorded with both
    predictions. *)
Lemma evaluation_pairs_gold_twice :
  evaluation_part exact_or_overlapping two_predictions_part
    = [(mention 4 "V600E", mention 4 "V600E");
       (mention 4 "V600E", mention 6 "00E mutation")]
  ∧ mention 4 "V600E" ≠ mention 6 "00E mutation".
Proof. split; [by vm_compute|discriminate]. Qed.

(** C4, amended. Whatever the entities and their equality, every pair of
    the cartesian product that compares equal is recorded, in the order of
    the product, a gold annotation once with each prediction equal to it;
    on each of these pairs the first element still in the pool of gold
    annotations that equals its gold side is taken out, and the first
    still in the pool of predictions that equals its predicted side. Then
    every gold annotation left in its pool is recorded with the empty
    prediction, and then every prediction left in its pool with the empty
    gold entity. When the entities of each list equal only themselves,
    the pools left are the gold annotations without an equal prediction
    and the predictions without an equal gold annotation. *)
Theorem evaluation_part_records (entity_eq : Entity → Entity → bool) (part : Part) :
  evaluation_part entity_eq part
  = equal_pairs entity_eq part
    ++ ((λ ann, (ann, sentinel)) <$> left_gold entity_eq part)
    ++ ((λ pred, (sentinel, pred)) <$> left_pred entity_eq part)
  ∧ (distinct_entities entity_eq (annotations part) = true →
     distinct_entities entity_eq (predicted_annotations part) = true →
     left_gold entity_eq part = unmatched_gold entity_eq part
     ∧ left_pred entity_eq part = unmatched_pred entity_eq part).
Proof.
  split; [apply evaluation_part_left|].
  intros Ha Hp. apply left_pools_unmatched; by apply distinct_entities_separate.
Qed.

Definition braf_part : Part :=
  {| part_text := "BRAF with V600E activates the kinase";
     annotations := [mention 0 "BRAF"; mention 10 "V600E"];
     predicted_annotations := [mention 0 "BRAF"; mention 30 "kinase"] |}.

(** A gold annotation that two predictions overlap, a gold annotation
    without a prediction and a prediction without a gold annotation; no
    two gold annotations overlap and no two predictions. *)
Definition split_prediction_part : Part :=
  {| part_text := "BRAF V600E mutation found";
     annotations := [mention 0 "BRAF"; mention 5 "V600E mutation"];
     predicted_annotations :=
       [mention 5 "V600E"; mention 11 "mutation"; mention 20 "found"] |}.

Lemma evaluation_part_records_witness :
  evaluation_part exact_or_overlapping split_prediction_part
  = equal_pairs exact_or_overlapping split_prediction_part
    ++ ((λ ann, (ann, sentinel)) <$> left_gold exact_or_overlapping split_prediction_part)
    ++ ((λ pred, (sentinel, pred))
          <$> left_pred exact_or_overlapping split_prediction_part)
  ∧ left_gold exact_or_overlapping split_prediction_part
    = unmatched_gold exact_or_overlapping split_prediction_part
  ∧ left_pred exact_or_overlapping split_prediction_part
    = unmatched_pred exact_or_overlapping split_prediction_part.
Proof.
  destruct (evaluation_part_records exact_or_overlapping split_prediction_part)
    as [Hrecords Hpools].
  split; [exact Hrecords|]. apply Hpools; reflexivity.
Defined.

Example evaluation_split_prediction_part :
  evaluation_part exact_or_overlapping split_prediction_part
  = [(mention 5 "V600E mutation", mention 5 "V600E");
     (mention 5 "V600E mutation", mention 11 "mutation");
     (mention 0 "BRAF", sentinel);
     (sentinel, mention 20 "found")].
Proof. by vm_compute. Qed.

(** Two gold annotations that overlap each other, and a prediction equal
    to the second one only: the first gold annotation leaves the pool in
    its place, and the second is recorded with the prediction and with
    the empty prediction as well. *)
Definition overlapping_gold_part : Part :=
  {| part_text := "the V600E mutation";
     annotations := [mention 0 "the V600E"; mention 4 "V600E mutation"];
     predicted_annotations := [mention 10 "mutation"] |}.

Example evaluation_overlapping_gold_part :
  evaluation_part exact_or_overlapping overlapping_gold_part
  = [(mention 4 "V600E mutation", mention 10 "mutation");
     (mention 4 "V600E mutation", sentinel)].
Proof. by vm_compute. Qed.

Example evaluation_braf_part :
  evaluation_part exact_or_overlapping braf_part
  = [(mention 0 "BRAF", mention 0 "BRAF");
     (mention 10 "V600E", sentinel);
     (sentinel, mention 30 "kinase")].
Proof. by vm_compute. Qed.

End Evaluation.


(** ** [Iteration.cross_validation]: the rows of [cross_validation.csv] *)

Module CrossValidation.

Inductive strictness := Exact | Overlapping.

(** The first cell of a row: the fold, ['average'] or ['sum_of_folds']. *)
Inductive label :=
| Fold (fold : nat)
| Average
| SumOfFolds.

(** The third cell of a row: a subclass or ['total']. *)
Inductive bucket :=
| Subclass (subclass : Z)
| Total.

(** [zip] applied to the unpacked [rows]: the columns of [rows], as many as the shortest row has
    cells; no column for no row. *)
Fixpoint columns {A : Type} (n : nat) (rows : list (list A)) : list (list A) :=
  match n with
  | O => []
  | S n' =>
      match mapM head rows with
      | Some col => col :: columns n' (tail <$> rows)
      | None => []
      end
  end.

Definition zip_star {A : Type} (rows : list (list A)) : list (list A) :=
  match rows with
  | [] => []
  | first :: _ => columns (length first) rows
  end.

Section Aggregation.
(** The numbers of Python ([int] counts and [float] ratios), with the [0]
    that [sum] starts from, [+], the division by [len(col)], and nalaf's
    [MentionLevelEvaluator(strictness).calc_measures(tp, fp, fn,
    fp_overlap, fn_overlap)]. *)
Variable num : Type.
Variable zero : num.
Variable add : num → num → num.
Variable divide : num → nat → num.
Variable calc_measures : strictness → list num → list num.

Record row := {
  r_label : label;
  r_strictness : strictness;
  r_bucket : bucket;
  r_values : list num;
}.

(** What [MentionLevelEvaluator(strictness, subclass_analysis=True)
    .evaluate(test)] returns: the items of the dict of measures per
    subclass, and the measures of the whole fold. *)
Record evaluation := {
  subclass_measures : list (Z * list num);
  results : list num;
}.

Record fold_evaluations := {
  exact : evaluation;
  overlapping : evaluation;
}.

Definition of_strictness (s : strictness) (f : fold_evaluations) : evaluation :=
  match s with Exact => exact f | Overlapping => overlapping f end.

(** The local variables of [cross_validation] and the rows written. *)
Record ledger := {
  written : list row;
  folds_results_exact : list (list num);
  folds_results_overlapping : list (list num);
  subclass_averages_exact : list (Z * list (list num));
  subclass_averages_overlapping : list (Z * list (list num));
}.

(** [d[k].append(v)] on a [defaultdict(list)]; a new key goes last. *)
Fixpoint dict_append (k : Z) (v : list num) (d : list (Z * list (list num)))
  : list (Z * list (list num)) :=
  match d with
  | [] => [(k, [v])]
  | (k', vs) :: d' =>
      if decide (k = k') then (k', vs ++ [v]) :: d'
      else (k', vs) :: dict_append k v d'
  end.

(** [for subclass, measures in subclass_measures.items()]: a row and an
    entry of the dict for each. *)
Definition write_subclasses (fold : nat) (s : strictness)
    (measures : list (Z * list num))
    (acc : list row * list (Z * list (list num)))
  : list row * list (Z * list (list num)) :=
  foldl (λ acc' (item : Z * list num),
           (fst acc' ++ [{| r_label := Fold fold; r_strictness := s;
                            r_bucket := Subclass (fst item);
                            r_values := snd item |}],
            dict_append (fst item) (snd item) (snd acc')))
        acc measures.

(** The evaluation part of the body of [for fold in range(split)]. *)
Definition record_fold (st : ledger) (fold : nat) (f : fold_evaluations) : ledger :=
  let e := write_subclasses fold Exact (subclass_measures (exact f))
             (written st, subclass_averages_exact st) in
  let rows_e := fst e ++ [{| r_label := Fold fold; r_strictness := Exact;
                             r_bucket := Total; r_values := results (exact f) |}] in
  let o := write_subclasses fold Overlapping (subclass_measures (overlapping f))
             (rows_e, subclass_averages_overlapping st) in
  let rows_o := fst o ++ [{| r_label := Fold fold; r_strictness := Overlapping;
                             r_bucket := Total;
                             r_values := results (overlapping f) |}] in
  {| written := rows_o;
     folds_results_exact := folds_results_exact st ++ [results (exact f)];
     folds_results_overlapping :=
       folds_results_overlapping st ++ [results (overlapping f)];
     subclass_averages_exact := snd e;
     subclass_averages_overlapping := snd o |}.

Fixpoint run_folds (fold : nat) (fs : list fold_evaluations) (st : ledger) : ledger :=
  match fs with
  | [] => st
  | f :: rest => run_folds (S fold) rest (record_fold st fold f)
  end.

(** [[sum(col)/len(col) for col in columns]], over the columns of [rows] *)
Definition column_means (rows : list (list num)) : list num :=
  (λ col, divide (foldl add zero col) (length col)) <$> zip_star rows.

(** [[sum(col) for col in columns][:5]], over the columns of [rows] *)
Definition count_sums (rows : list (list num)) : list num :=
  take 5 ((λ col, foldl add zero col) <$> zip_star rows).

Definition average_rows (s : strictness) (per_subclass : list (Z * list (list num)))
    (totals : list (list num)) : list row :=
  ((λ entry : Z * list (list num),
      {| r_label := Average; r_strictness := s; r_bucket := Subclass (fst entry);
         r_values := column_means (snd entry) |}) <$> per_subclass)
  ++ [{| r_label := Average; r_strictness := s; r_bucket := Total;
         r_values := column_means totals |}].

Definition sum_rows (s : strictness) (per_subclass : list (Z * list (list num)))
    (totals : list (list num)) : list row :=
  ((λ entry : Z * list (list num),
      {| r_label := SumOfFolds; r_strictness := s; r_bucket := Subclass (fst entry);
         r_values := calc_measures s (count_sums (snd entry)) |}) <$> per_subclass)
  ++ [{| r_label := SumOfFolds; r_strictness := s; r_bucket := Total;
         r_values := calc_measures s (count_sums totals) |}].

(** The rows that the block after the folds appends to
    [cross_validation.csv]. The two loops of the last block read
    [subclass_averages_exact] and [folds_results_exact]. *)
Definition summary (st : ledger) : list row :=
  average_rows Exact (subclass_averages_exact st) (folds_results_exact st)
  ++ average_rows Overlapping (subclass_averages_overlapping st)
       (folds_results_overlapping st)
  ++ sum_rows Exact (subclass_averages_exact st) (folds_results_exact st)
  ++ sum_rows Overlapping (subclass_averages_exact st) (folds_results_exact st).

Definition start : ledger :=
  {| written := []; folds_results_exact := []; folds_results_overlapping := [];
     subclass_averages_exact := []; subclass_averages_overlapping := [] |}.

(** The rows of [cross_validation.csv] after the header, for the
    evaluations of the folds in order. *)
Definition cross_validation (fs : list fold_evaluations) : list row :=
  let st := run_folds 0 fs start in
  written st ++ summary st.

(** *** What the ledger holds after the folds *)

(** All [(subclass, measures)] items of one strictness, fold after fold. *)
Definition entries (s : strictness) (fs : list fold_evaluations) : list (Z * list num) :=
  concat ((λ f, subclass_measures (of_strictness s f)) <$> fs).

(** The measures of the whole folds of one strictness, fold after fold. *)
Definition totals (s : strictness) (fs : list fold_evaluations) : list (list num) :=
  (λ f, results (of_strictness s f)) <$> fs.

(** The measures recorded for subclass [k], in order. *)
Definition series (k : Z) (items : list (Z * list num)) : list (list num) :=
  snd <$> List.filter (λ item, bool_decide (fst item = k)) items.

(** The subclasses in the order in which they first appear. *)
Definition first_keys (items : list (Z * list num)) : list Z :=
  foldl (λ acc k, if bool_decide (k ∈ acc) then acc else acc ++ [k]) [] (fst <$> items).

(** The measures grouped by subclass. *)
Definition grouped (items : list (Z * list num)) : list (Z * list (list num)) :=
  (λ k, (k, series k items)) <$> first_keys items.

Definition subclass_rows (fold : nat) (s : strictness) (measures : list (Z * list num))
  : list row :=
  (λ item : Z * list num,
     {| r_label := Fold fold; r_strictness := s; r_bucket := Subclass (fst item);
        r_values := snd item |}) <$> measures.

(** The rows of one fold. *)
Definition per_fold_rows (fold : nat) (f : fold_evaluations) : list row :=
  subclass_rows fold Exact (subclass_measures (exact f))
  ++ [{| r_label := Fold fold; r_strictness := Exact; r_bucket := Total;
         r_values := results (exact f) |}]
  ++ subclass_rows fold Overlapping (subclass_measures (overlapping f))
  ++ [{| r_label := Fold fold; r_strictness := Overlapping; r_bucket := Total;
         r_values := results (overlapping f) |}].

Fixpoint fold_rows (fold : nat) (fs : list fold_evaluations) : list row :=
  match fs with
  | [] => []
  | f :: rest => per_fold_rows fold f ++ fold_rows (S fold) rest
  end.

Definition append_all (d : list (Z * list (list num))) (items : list (Z * list num))
  : list (Z * list (list num)) :=
  foldl (λ d' (item : Z * list num), dict_append (fst item) (snd item) d') d items.

Lemma write_subclasses_spec (fold : nat) (s : strictness)
    (measures : list (Z * list num)) (acc : list row * list (Z * list (list num))) :
  write_subclasses fold s measures acc
  = (fst acc ++ subclass_rows fold s measures, append_all (snd acc) measures).
Proof.
  revert acc. induction measures as [|item measures IH]; intros [rows d]; simpl.
  { by rewrite app_nil_r. }
  unfold write_subclasses in *. simpl. rewrite IH. simpl.
  by rewrite <- List.app_assoc.
Qed.

Lemma append_all_app (d : list (Z * list (list num))) (l1 l2 : list (Z * list num)) :
  append_all d (l1 ++ l2) = append_all (append_all d l1) l2.
Proof. unfold append_all. by rewrite foldl_app. Qed.

Lemma run_folds_spec (fold : nat) (fs : list fold_evaluations) (st : ledger) :
  written (run_folds fold fs st) = written st ++ fold_rows fold fs
  ∧ folds_results_exact (run_folds fold fs st)
    = folds_results_exact st ++ totals Exact fs
  ∧ folds_results_overlapping (run_folds fold fs st)
    = folds_results_overlapping st ++ totals Overlapping fs
  ∧ subclass_averages_exact (run_folds fold fs st)
    = append_all (subclass_averages_exact st) (entries Exact fs)
  ∧ subclass_averages_overlapping (run_folds fold fs st)
    = append_all (subclass_averages_overlapping st) (entries Overlapping fs).
Proof.
  revert fold st. induction fs as [|f fs IH]; intros fold st; simpl.
  { by rewrite !app_nil_r. }
  destruct (IH (S fold) (record_fold st fold f)) as (-> & -> & -> & -> & ->).
  unfold record_fold, per_fold_rows, entries. rewrite !write_subclasses_spec. simpl.
  rewrite !append_all_app, <- !List.app_assoc. simpl.
  by rewrite <- !List.app_assoc.
Qed.

(** *** The dict groups the measures by subclass *)

Lemma first_keys_snoc (items : list (Z * list num)) (item : Z * list num) :
  first_keys (items ++ [item])
  = if bool_decide (fst item ∈ first_keys items) then first_keys items
    else first_keys items ++ [fst item].
Proof. unfold first_keys. by rewrite fmap_app, foldl_app. Qed.

Lemma first_keys_elem_of (items : list (Z * list num)) (k : Z) :
  k ∈ first_keys items ↔ k ∈ fst <$> items.
Proof.
  induction items as [|item items IH] using rev_ind.
  { done. }
  rewrite first_keys_snoc, fmap_app, elem_of_app. simpl.
  rewrite list_elem_of_singleton, <- IH.
  case_bool_decide as Hin; [|rewrite elem_of_app, list_elem_of_singleton; tauto].
  split; [tauto|]. by intros [?| ->].
Qed.

Lemma first_keys_NoDup (items : list (Z * list num)) : NoDup (first_keys items).
Proof.
  induction items as [|item items IH] using rev_ind.
  { constructor. }
  rewrite first_keys_snoc. case_bool_decide as Hin; [done|].
  apply NoDup_app. split; [done|]. split; [|apply NoDup_singleton].
  intros k Hk ->%list_elem_of_singleton. done.
Qed.

Lemma series_snoc (k : Z) (items : list (Z * list num)) (item : Z * list num) :
  series k (items ++ [item])
  = series k items ++ (if decide (fst item = k) then [snd item] else []).
Proof.
  unfold series. rewrite List.filter_app, fmap_app. simpl.
  case_bool_decide; by case_decide.
Qed.

Lemma series_absent (k : Z) (items : list (Z * list num)) :
  k ∉ fst <$> items → series k items = [].
Proof.
  unfold series. induction items as [|item items IH]; simpl; [done|].
  intros [Hne Hnotin]%not_elem_of_cons.
  rewrite bool_decide_false by done. by apply IH.
Qed.

Lemma dict_append_keys (k : Z) (v : list num) (ks : list Z) (g : Z → list (list num)) :
  NoDup ks →
  dict_append k v ((λ k', (k', g k')) <$> ks)
  = if bool_decide (k ∈ ks)
    then (λ k', (k', g k' ++ (if decide (k = k') then [v] else []))) <$> ks
    else ((λ k', (k', g k')) <$> ks) ++ [(k, [v])].
Proof.
  induction ks as [|k0 ks IH]; intros Hnd; csimpl; [done|].
  apply NoDup_cons in Hnd as [Hnotin Hnd].
  destruct (decide (k = k0)) as [->|Hne].
  - rewrite bool_decide_true by left. csimpl. f_equal.
    apply list_fmap_ext. intros i k' Hk'. f_equal.
    rewrite decide_False, app_nil_r; [done|].
    intros ->. apply Hnotin. by eapply list_elem_of_lookup_2.
  - rewrite IH by done. rewrite app_nil_r.
    destruct (bool_decide (k ∈ ks)) eqn:Hin.
    + apply bool_decide_eq_true in Hin. rewrite bool_decide_true by by right. done.
    + apply bool_decide_eq_false in Hin.
      rewrite bool_decide_false; [done|]. by intros [?|?]%elem_of_cons.
Qed.

Lemma append_all_grouped (items : list (Z * list num)) :
  append_all [] items = grouped items.
Proof.
  induction items as [|[k v] items IH] using rev_ind; [done|].
  rewrite append_all_app, IH. simpl. unfold grouped.
  rewrite dict_append_keys by apply first_keys_NoDup.
  rewrite first_keys_snoc. simpl.
  case_bool_decide as Hin.
  - apply list_fmap_ext. intros i k' Hk'. f_equal. by rewrite series_snoc.
  - rewrite fmap_app. simpl. f_equal.
    + apply list_fmap_ext. intros i k' Hk'. f_equal. rewrite series_snoc. simpl.
      rewrite decide_False, app_nil_r; [done|].
      intros ->. apply Hin. by eapply list_elem_of_lookup_2.
    + rewrite series_snoc. simpl. rewrite decide_True by done.
      rewrite series_absent; [done|]. by rewrite <- first_keys_elem_of.
Qed.

(** The rows in terms of what the evaluator returned for the folds. After
    the rows of the folds come, for each strictness, the ['average'] rows:
    the column means of that strictness's measures, per subclass and for
    the whole folds. Then come the ['sum_of_folds'] rows of both
    strictness settings: [calc_measures] of the strictness of the row, on
    the first five column sums of the rows that the folds gave at exact
    strictness. *)
Lemma cross_validation_rows (fs : list fold_evaluations) :
  cross_validation fs
  = fold_rows 0 fs
    ++ average_rows Exact (grouped (entries Exact fs)) (totals Exact fs)
    ++ average_rows Overlapping (grouped (entries Overlapping fs))
         (totals Overlapping fs)
    ++ sum_rows Exact (grouped (entries Exact fs)) (totals Exact fs)
    ++ sum_rows Overlapping (grouped (entries Exact fs)) (totals Exact fs).
Proof.
  unfold cross_validation, summary.
  destruct (run_folds_spec 0 fs start) as (-> & -> & -> & -> & ->).
  simpl. by rewrite !append_all_grouped.
Qed.

(** *** What the ['sum_of_folds'] rows sum *)

(** What nalaf's evaluator has counted on the test split of a fold when it
    calls [calc_measures]: (tp, fp, fn, fp_overlap, fn_overlap) for each
    subclass and for the whole split. *)
Record counts := {
  subclass_counts : list (Z * list num);
  total_counts : list num;
}.

(** [MentionLevelEvaluator(strictness, subclass_analysis=True)
    .evaluate(test)] as [cross_validation] uses it: the evaluator is a
    dependency and not part of this repository; it returns
    [calc_measures] of what it counted, per subclass and for the whole
    split, and the strictness enters in [calc_measures] only. *)
Definition evaluate (s : strictness) (c : counts) : evaluation :=
  {| subclass_measures :=
       (λ item : Z * list num, (fst item, calc_measures s (snd item)))
         <$> subclass_counts c;
     results := calc_measures s (total_counts c) |}.

Definition evaluate_fold (c : counts) : fold_evaluations :=
  {| exact := evaluate Exact c; overlapping := evaluate Overlapping c |}.









Section Pooled.
(** At exact strictness [calc_measures] returns the five counts it was
    given, followed by the measures. *)
Hypothesis exact_keeps_counts :
  ∀ c : list num, length c = 5%nat → take 5 (calc_measures Exact c) = c.









End Pooled.

End Aggregation.


(** *** A concrete run, with rational numbers *)

Definition q_divide (x : Q) (n : nat) : Q := Qred (x / inject_Z (Z.of_nat n))%Q.

Definition ratio (a b : Q) : Q := if Qeq_bool b 0%Q then 0%Q else Qred (a / b)%Q.

(** A stand-in for nalaf's [calc_measures]: the counts as the evaluator
    returns them (at overlapping strictness the overlaps are taken out of
    the false positives and negatives and count as hits), then precision,
    recall and F1. *)
Definition example_calc_measures (s : strictness) (counts : list Q) : list Q :=
  match counts with
  | [tp; fp; fn; fp_overlap; fn_overlap] =>
      let '(hit, fp', fn') :=
        match s with
        | Exact => (tp, fp, fn)
        | Overlapping =>
            (Qred (tp + fp_overlap + fn_overlap)%Q, Qred (fp - fp_overlap)%Q,
             Qred (fn - fn_overlap)%Q)
        end in
      let precision := ratio hit (hit + fp')%Q in
      let recall := ratio hit (hit + fn')%Q in
      [tp; fp'; fn'; fp_overlap; fn_overlap; precision; recall;
       ratio (2 * precision * recall)%Q (precision + recall)%Q]
  | _ => []
  end.

(** One fold: 3 exact hits, 2 false positives and 2 false negatives, one
    of each being an overlap. *)
Definition example_fold : fold_evaluations Q :=
  {| exact := {| subclass_measures := [];
                 results := example_calc_measures Exact [3%Q; 2%Q; 2%Q; 1%Q; 1%Q] |};
     overlapping := {| subclass_measures := [];
                       results := example_calc_measures Overlapping [3%Q; 2%Q; 2%Q; 1%Q; 1%Q] |} |}.

(** Two folds with two subclasses each. *)
Definition first_fold_counts : counts Q :=
  {| subclass_counts := [(0, [2; 1; 1; 1; 0]%Q); (1, [1; 1; 1; 0; 1]%Q)];
     total_counts := [3; 2; 2; 1; 1]%Q |}.

Definition second_fold_counts : counts Q :=
  {| subclass_counts := [(1, [1; 0; 2; 0; 1]%Q); (2, [0; 1; 0; 1; 0]%Q)];
     total_counts := [1; 1; 2; 1; 1]%Q |}.


(** The ['sum_of_folds'] row of the whole splits at overlapping strictness
    for these two folds: the counts summed are 4, 3, 4, 2 and 2. *)
Example pooled_overlapping_total :
  {| r_label := SumOfFolds; r_strictness := Overlapping; r_bucket := Total;
     r_values := example_calc_measures Overlapping [4; 3; 4; 2; 2]%Q |}
    ∈ cross_validation Q 0%Q Qplus q_divide example_calc_measures
        (evaluate_fold Q example_calc_measures
           <$> [first_fold_counts; second_fold_counts]).
Proof.
  rewrite cross_validation_rows.
  do 4 (apply elem_of_app; right). apply elem_of_app. right.
  apply list_elem_of_singleton. by vm_compute.
Qed.

End CrossValidation.


(** ** More on [Iteration.__init__] *)

Module IterationInitFacts.
Import Text IterationInit.

Lemma stats_not_iteration (m : Z) : "stats.csv" ≠ iteration_name m.
Proof.
  unfold iteration_name.
  change ("iteration_" +:+ pretty m) with (String "i"%char ("teration_" +:+ pretty m)).
  discriminate.
Qed.

Lemma digits_value_nonneg (ds : string) (acc : Z) : 0 ≤ acc → 0 ≤ digits_value acc ds.
Proof.
  revert acc. induction ds as [|c ds IH]; intros acc Hacc; simpl; [done|].
  apply IH. unfold digit_value. destruct (Ascii.is_nat c); lia.
Qed.

Lemma re_search_nonneg (s : string) (m : Z) : re_search s = Some m → 0 ≤ m.
Proof.
  induction s as [|c s IH]; simpl.
  - unfold match_here. simpl. discriminate.
  - destruct (match_here (String c s)) as [k|] eqn:E; [|done].
    intros [= <-]. unfold match_here in E.
    destruct (starts_with "iteration_" (String c s)) as [rest|]; [|done].
    destruct (span_digits rest) as [[|d ds] r]; [done|].
    injection E as <-. by apply digits_value_nonneg.
Qed.

Lemma scan_lower_bound (fns : list string) (k n : Z) :
  scan fns k = inr n → k ≤ n.
Proof.
  revert k. induction fns as [|fn fns IH]; intros k; simpl.
  - intros [= <-]. lia.
  - destruct (re_search fn) as [m|]; [|done].
    intros H%IH. destruct (Z.gtb_spec m k); lia.
Qed.

(** X1. Found by the scan of the folder, the iteration number is -1 (no
    iteration directory at all) or at least 1: iteration 0 is never the
    working iteration. *)
Theorem find_number_never_zero (folder : string) (fs : gmap string node) (n : Z) :
  find_number folder fs = inr n → n = -1 ∨ 1 ≤ n.
Proof.
  unfold find_number.
  destruct (scan (glob_iterations folder fs) (-1)) as [e|k] eqn:E; [done|].
  apply scan_lower_bound in E. intros [= <-].
  destruct (isdir2 fs (iteration_name k) "candidates"),
           (isdir2 fs (iteration_name k) "reviewed");
    case_match; lia.
Qed.

Lemma find_number_never_zero_witness :
  resumed_number resuming_folder 3 = -1 ∨ 1 ≤ resumed_number resuming_folder 3.
Proof.
  apply (find_number_never_zero "/data/bootstrapping" resuming_folder).
  apply find_number_highest.
  - reflexivity.
  - unfold resuming_folder.
    repeat (apply canonical_layout_insert; [lia|]).
    apply canonical_layout_insert_file, canonical_layout_empty.
  - lia.
  - eexists. unfold resuming_folder. apply lookup_insert_eq.
  - intros m Hm [subdirs Hl]. unfold resuming_folder in Hl.
    repeat (rewrite lookup_insert in Hl; case_decide as Hname;
            [apply iteration_name_inj in Hname; lia|clear Hname]).
    rewrite lookup_insert in Hl. case_decide; [discriminate Hl|].
    by rewrite lookup_empty in Hl.
Defined.

Lemma scan_attribute_error (fns : list string) (k : Z) :
  (∃ fn, fn ∈ fns ∧ re_search fn = None) → scan fns k = inl AttributeError.
Proof.
  revert k. induction fns as [|fn fns IH]; intros k [bad [Hin Hbad]].
  - by apply elem_of_nil in Hin.
  - simpl. apply elem_of_cons in Hin as [->|Hin]; [by rewrite Hbad|].
    destruct (re_search fn); [|done]. apply IH. eauto.
Qed.

(** X2. A directory that [glob] reports (a directory of the folder whose
    name begins with [iteration_], the path of the folder being one that
    [glob] takes literally) but in whose path the pattern
    [iteration_([0-9]+)] occurs nowhere (a directory [iteration_old], say)
    makes the constructor fail with [AttributeError], whatever else the
    folder holds; the folder is left as it was. *)
Theorem init_attribute_error (folder : string) (fs : gmap string node)
    (name : string) (subdirs : gset string) :
  has_magic folder = false →
  fs !! name = Some (Dir subdirs) →
  is_Some (starts_with "iteration_" name) →
  re_search (join folder name +:+ "/") = None →
  init folder (Some fs) true None = inl AttributeError.
Proof.
  intros _ Hl Hs Hre. unfold init, find_number. simpl.
  rewrite scan_attribute_error; [done|].
  exists (join folder name +:+ "/"). split; [|done].
  apply elem_of_glob_iterations. eauto.
Qed.

Lemma init_attribute_error_witness :
  init "/data/bootstrapping"
       (Some (<["iteration_old" := Dir ∅]> (<[iteration_name 2 := Dir ∅]> ∅)))
       true None
  = inl AttributeError.
Proof.
  apply (init_attribute_error "/data/bootstrapping" _ "iteration_old" ∅).
  - reflexivity.
  - apply lookup_insert_eq.
  - by eexists.
  - reflexivity.
Defined.

(** X3. Whatever the iteration number and however it was found, construction
    only adds to the folder: every entry is kept as it was, the working
    directory and the statistics file exist afterwards, and no other name
    appears. *)
Theorem init_only_adds (folder : string) (fs fs' : gmap string node)
    (iteration_nr : option Z) (it : iteration) :
  init folder (Some fs) true iteration_nr = inr (it, fs') →
  fs ⊆ fs'
  ∧ is_Some (fs' !! iteration_name (number it))
  ∧ is_Some (fs' !! "stats.csv")
  ∧ (∀ name, fs !! name = None → is_Some (fs' !! name) →
       name = iteration_name (number it) ∨ name = "stats.csv")
  ∧ current_folder it = join folder (iteration_name (number it)).
Proof.
  unfold init. simpl.
  destruct (match iteration_nr with
            | Some nr => inr nr
            | None => find_number folder fs
            end) as [e|n]; [done|].
  intros [= <- <-]. simpl.
  unfold ensure_stats, ensure_dir.
  destruct (fs !! iteration_name n) as [nd|] eqn:Hn.
  - destruct (fs !! "stats.csv") as [sf|] eqn:Hst.
    + repeat split; eauto. intros name Hnone [x Hx]. congruence.
    + repeat split.
      * by apply insert_subseteq.
      * rewrite lookup_insert_ne by apply stats_not_iteration. eauto.
      * rewrite lookup_insert_eq. eauto.
      * intros name Hnone [x Hx]. right.
        destruct (decide ("stats.csv" = name)) as [|Hne]; [done|].
        rewrite lookup_insert_ne in Hx by done. congruence.
  - destruct (<[iteration_name n := Dir ∅]> fs !! "stats.csv") as [sf|] eqn:Hst.
    + repeat split.
      * by apply insert_subseteq.
      * rewrite lookup_insert_eq. eauto.
      * eauto.
      * intros name Hnone [x Hx]. left.
        destruct (decide (iteration_name n = name)) as [|Hne]; [done|].
        rewrite lookup_insert_ne in Hx by done. congruence.
    + assert (fs !! "stats.csv" = None) as Hst'.
      { rewrite lookup_insert_ne in Hst; [done|].
        intros H. symmetry in H. by apply stats_not_iteration in H. }
      repeat split.
      * etrans; [|apply insert_subseteq; exact Hst]. by apply insert_subseteq.
      * rewrite lookup_insert_ne by apply stats_not_iteration.
        rewrite lookup_insert_eq. eauto.
      * rewrite lookup_insert_eq. eauto.
      * intros name Hnone [x Hx].
        destruct (decide ("stats.csv" = name)) as [|Hne]; [by right|].
        rewrite lookup_insert_ne in Hx by done.
        destruct (decide (iteration_name n = name)) as [|Hne']; [by left|].
        rewrite lookup_insert_ne in Hx by done. congruence.
Qed.

Lemma init_only_adds_witness :
  fresh_folder ⊆ <[iteration_name 5 := Dir ∅]> fresh_folder
  ∧ is_Some (<[iteration_name 5 := Dir ∅]> fresh_folder !! iteration_name 5).
Proof.
  destruct (init_only_adds "/data/bootstrapping" fresh_folder
              (<[iteration_name 5 := Dir ∅]> fresh_folder) (Some 5)
              {| number := 5;
                 current_folder := "/data/bootstrapping/iteration_5";
                 candidates_folder := "/data/bootstrapping/iteration_5/candidates";
                 reviewed_folder := "/data/bootstrapping/iteration_5/reviewed" |})
    as (Hsub & Hdir & _); [reflexivity|].
  split; [exact Hsub|exact Hdir].
Defined.

Lemma ensure_dir_present (name : string) (fs : gmap string node) :
  is_Some (fs !! name) → ensure_dir name fs = fs.
Proof. intros [x Hx]. unfold ensure_dir. by rewrite Hx. Qed.

Lemma ensure_stats_present (fs : gmap string node) :
  is_Some (fs !! "stats.csv") → ensure_stats fs = fs.
Proof. intros [x Hx]. unfold ensure_stats. by rewrite Hx. Qed.

Lemma ensure_stats_has_stats (fs : gmap string node) :
  is_Some (ensure_stats fs !! "stats.csv").
Proof.
  unfold ensure_stats. destruct (fs !! "stats.csv") eqn:E; [by rewrite E|].
  rewrite lookup_insert_eq. eauto.
Qed.

Lemma ensure_stats_iteration (fs : gmap string node) (m : Z) :
  ensure_stats fs !! iteration_name m = fs !! iteration_name m.
Proof. apply ensure_stats_lookup_ne, stats_not_iteration. Qed.

Lemma canonical_layout_ensure_stats (fs : gmap string node) :
  canonical_layout fs → canonical_layout (ensure_stats fs).
Proof.
  intros H. unfold ensure_stats. destruct (fs !! "stats.csv"); [done|].
  by apply canonical_layout_insert_file.
Qed.

Lemma resumed_number_ensure_stats (fs : gmap string node) (n : Z) :
  resumed_number (ensure_stats fs) n = resumed_number fs n.
Proof.
  unfold resumed_number, closed, isdir2. by rewrite ensure_stats_iteration.
Qed.

Lemma resumed_number_bounds (fs : gmap string node) (n : Z) :
  0 ≤ n → 1 ≤ resumed_number fs n ∧ n ≤ resumed_number fs n.
Proof.
  intros Hn. unfold resumed_number. destruct (closed fs n); case_match; lia.
Qed.

(** X4. Resuming is stable. On a folder with the layout of the design
    document, constructing the controller a second time, on the folder as
    the first construction left it, finds the same iteration number and
    changes nothing more. *)
Theorem init_twice (folder : string) (fs fs' : gmap string node) (n : Z)
    (it : iteration) :
  re_search folder = None →
  canonical_layout fs →
  0 ≤ n →
  is_iteration_dir fs n →
  (∀ m, 0 ≤ m → is_iteration_dir fs m → m ≤ n) →
  init folder (Some fs) true None = inr (it, fs') →
  init folder (Some fs') true None = inr (it, fs').
Proof.
  intros Hpath Hlay Hn Hdir Hmax. unfold init. simpl.
  rewrite (find_number_highest folder fs n) by done.
  intros [= <- <-].
  destruct (resumed_number_bounds fs n Hn) as [Hone Hge].
  set (r := resumed_number fs n) in *.
  set (fs1 := ensure_dir (iteration_name r) fs).
  assert (is_Some (fs1 !! iteration_name r)) as Hhas.
  { unfold fs1, ensure_dir. destruct (fs !! iteration_name r) eqn:E.
    - rewrite E. eauto.
    - rewrite lookup_insert_eq. eauto. }
  assert (find_number folder (ensure_stats fs1) = inr r) as ->.
  { destruct (fs !! iteration_name r) as [nd|] eqn:E.
    - assert (fs1 = fs) as -> by (apply ensure_dir_present; eauto).
      rewrite (find_number_highest folder (ensure_stats fs) n);
        [by rewrite resumed_number_ensure_stats| done
        | by apply canonical_layout_ensure_stats | done | |].
      + destruct Hdir as [sd Hsd]. exists sd. by rewrite ensure_stats_iteration.
      + intros m Hm [sd Hsd]. rewrite ensure_stats_iteration in Hsd.
        apply Hmax; [done|]. by exists sd.
    - assert (fs1 = <[iteration_name r := Dir ∅]> fs) as Hfs1.
      { unfold fs1, ensure_dir. by rewrite E. }
      rewrite (find_number_highest folder (ensure_stats fs1) r).
      + f_equal. rewrite resumed_number_ensure_stats.
        unfold resumed_number, closed, isdir2.
        rewrite Hfs1, lookup_insert_eq.
        rewrite (bool_decide_false ("candidates" ∈ (∅ : gset string)))
          by apply not_elem_of_empty.
        simpl. destruct (Z.eqb_spec r 0); [lia|done].
      + done.
      + apply canonical_layout_ensure_stats. rewrite Hfs1.
        apply canonical_layout_insert; [lia|done].
      + lia.
      + exists ∅. by rewrite ensure_stats_iteration, Hfs1, lookup_insert_eq.
      + intros m Hm [sd Hsd]. rewrite ensure_stats_iteration, Hfs1 in Hsd.
        destruct (decide (iteration_name r = iteration_name m)) as [Heq|Hne].
        * apply iteration_name_inj in Heq. lia.
        * rewrite lookup_insert_ne in Hsd by done.
          assert (m ≤ n); [|lia]. apply Hmax; [done|]. by exists sd. }
  do 2 f_equal.
  rewrite (ensure_dir_present (iteration_name r) (ensure_stats fs1))
    by (by rewrite ensure_stats_iteration).
  apply ensure_stats_present, ensure_stats_has_stats.
Qed.

Lemma init_twice_witness :
  init "/data/bootstrapping"
       (Some (ensure_stats (ensure_dir (iteration_name 3) resuming_folder))) true None
  = inr ({| number := 3;
            current_folder := "/data/bootstrapping/iteration_3";
            candidates_folder := "/data/bootstrapping/iteration_3/candidates";
            reviewed_folder := "/data/bootstrapping/iteration_3/reviewed" |},
         ensure_stats (ensure_dir (iteration_name 3) resuming_folder)).
Proof.
  apply (init_twice "/data/bootstrapping" resuming_folder _ 3).
  - reflexivity.
  - unfold resuming_folder.
    repeat (apply canonical_layout_insert; [lia|]).
    apply canonical_layout_insert_file, canonical_layout_empty.
  - lia.
  - eexists. unfold resuming_folder. apply lookup_insert_eq.
  - intros m Hm [subdirs Hl]. unfold resuming_folder in Hl.
    repeat (rewrite lookup_insert in Hl; case_decide as Hname;
            [apply iteration_name_inj in Hname; lia|clear Hname]).
    rewrite lookup_insert in Hl. case_decide; [discriminate Hl|].
    by rewrite lookup_empty in Hl.
  - unfold init. simpl. rewrite (find_number_highest _ _ 3).
    + reflexivity.
    + reflexivity.
    + unfold resuming_folder.
      repeat (apply canonical_layout_insert; [lia|]).
      apply canonical_layout_insert_file, canonical_layout_empty.
    + lia.
    + eexists. unfold resuming_folder. apply lookup_insert_eq.
    + intros m Hm [subdirs Hl]. unfold resuming_folder in Hl.
      repeat (rewrite lookup_insert in Hl; case_decide as Hname;
              [apply iteration_name_inj in Hname; lia|clear Hname]).
      rewrite lookup_insert in Hl. case_decide; [discriminate Hl|].
      by rewrite lookup_empty in Hl.
Defined.

End IterationInitFacts.


(** ** More on the filters *)

Module FiltersFacts.
Import Text Data Filters.

(** *** [KeywordsDocumentFilter] *)

Section KeywordsFacts.
Context {pattern : Type}.
Variable search : pattern → string → option (Z * Z).

Definition hit (text : string) (k : pattern) : bool :=
  bool_decide (is_Some (search k text)).

Lemma any_keyword_spec (text : string) (keywords : list pattern) :
  snd (any_keyword search text keywords) `suffix_of` keywords
  ∧ fst (any_keyword search text keywords) = existsb (hit text) keywords
  ∧ (fst (any_keyword search text keywords) = false →
     snd (any_keyword search text keywords) = []).
Proof.
  induction keywords as [|k keywords (Hsuf & Hex & Hnil)]; simpl; [done|].
  unfold hit at 1. destruct (search k text) as [span|] eqn:E; simpl.
  - split; [by apply suffix_cons_r|done].
  - split; [by apply suffix_cons_r|done].
Qed.

Lemma contains_keyword_suffix (cur keywords : list pattern) (doc : Document) :
  cur `suffix_of` keywords →
  contains_keyword search cur doc = true → contains_keyword search keywords doc = true.
Proof.
  intros [front ->]. unfold contains_keyword. rewrite !existsb_exists.
  intros (p & Hp & Hk). exists p. split; [done|].
  rewrite existsb_app, Hk. apply orb_true_r.
Qed.

Lemma any_part_spec (ps : list (string * Part)) (keywords : list pattern) :
  snd (any_part search ps keywords) `suffix_of` keywords
  ∧ (fst (any_part search ps keywords) = true →
     existsb (λ p : string * Part, existsb (hit (part_text (snd p))) keywords) ps = true)
  ∧ (fst (any_part search ps keywords) = false → ps ≠ [] →
     snd (any_part search ps keywords) = [])
  ∧ (existsb (λ p : string * Part, existsb (hit (part_text (snd p))) keywords) ps = false →
     fst (any_part search ps keywords) = false).
Proof.
  revert keywords. induction ps as [|[name part] ps IH]; intros keywords; simpl.
  { done. }
  destruct (any_keyword_spec (part_text part) keywords) as (Hsuf & Hex & Hnil).
  destruct (any_keyword search (part_text part) keywords) as [[|] remaining];
    simpl in *.
  - rewrite <- Hex. simpl. done.
  - rewrite <- Hex. simpl. specialize (Hnil eq_refl). subst remaining.
    destruct (IH []) as (Hsuf' & Htrue & Hfalse & Hnone).
    split; [by etrans|]. split; [|split].
    + intros Ht. apply Htrue in Ht. apply existsb_exists in Ht as (p & _ & Hp).
      simpl in Hp. discriminate Hp.
    + intros Hf _. destruct ps as [|p ps']; [done|]. by apply Hfalse.
    + intros _. clear. induction ps as [|[n q] ps IHp]; [done|]. simpl. apply IHp.
Qed.

(** X5. The filter never yields a document without a keyword: every pair it
    yields has a part in which one of the keywords it started with
    matches. The converse fails: the keywords are a generator that the
    documents use up. *)
Theorem keywords_filter_sound (documents : list item) (keywords : list pattern)
    (x : item) :
  x ∈ fst (keywords_filter search documents keywords) →
  x ∈ documents ∧ contains_keyword search keywords (snd x) = true.
Proof.
  assert (∀ cur, cur `suffix_of` keywords →
            x ∈ fst (keywords_filter search documents cur) →
            x ∈ documents ∧ contains_keyword search keywords (snd x) = true) as H;
    [|by apply H].
  induction documents as [|[pmid doc] rest IH]; intros cur Hsuf; simpl.
  { by intros ?%elem_of_nil. }
  destruct (any_part_spec (parts doc) cur) as (Hsuf' & Htrue & _).
  destruct (any_part search (parts doc) cur) as [[|] remaining]; simpl in *.
  - specialize (IH remaining ltac:(by etrans)).
    destruct (keywords_filter search rest remaining) as [out final]. simpl in *.
    intros [->|Hin]%elem_of_cons.
    + split; [by left|]. simpl.
      apply (contains_keyword_suffix cur); [done|]. by apply Htrue.
    + destruct (IH Hin). split; [by right|done].
  - intros Hin. destruct (IH remaining ltac:(by etrans) Hin). split; [by right|done].
Qed.

(** X6. One rejected document silences the filter: a document that has a part
    and none of the keywords left in the generator uses the generator up,
    and neither it nor any document after it is yielded. *)
Theorem keywords_filter_dead_after_reject (pmid : string) (doc : Document)
    (rest : list item) (keywords : list pattern) :
  parts doc ≠ [] →
  contains_keyword search keywords doc = false →
  keywords_filter search ((pmid, doc) :: rest) keywords = ([], []).
Proof.
  intros Hparts Hnone. simpl.
  destruct (any_part_spec (parts doc) keywords) as (_ & _ & Hfalse & Hfst).
  specialize (Hfst Hnone).
  destruct (any_part search (parts doc) keywords) as [b remaining]. simpl in *.
  subst b. rewrite (Hfalse eq_refl Hparts). apply keywords_filter_exhausted.
Qed.

End KeywordsFacts.

Lemma keywords_filter_sound_witness :
  mutation_item "1" ∈ [mutation_item "1"; mutation_item "2"]
  ∧ contains_keyword Regex.search default_keywords (snd (mutation_item "1")) = true.
Proof.
  apply (keywords_filter_sound Regex.search [mutation_item "1"; mutation_item "2"]
           default_keywords (mutation_item "1")).
  vm_compute. left.
Defined.

Lemma keywords_filter_dead_after_reject_witness :
  keywords_filter Regex.search
    [("9", text_document ["Methods."]); mutation_item "1"] default_keywords
  = ([], []).
Proof.
  apply (keywords_filter_dead_after_reject Regex.search "9" (text_document ["Methods."])
           [mutation_item "1"] default_keywords).
  - discriminate.
  - reflexivity.
Defined.

(** *** The manual filters *)

(** X7. Cache idempotence. When every id of the input is in the cache, the
    operator is asked nothing: no line of the console is read, nothing is
    printed, the cache is unchanged, and the pairs yielded are those the
    cache accepts, in the order of the input. *)
Theorem manual_filter_cached (documents : list item) (c : gmap string bool)
    (inputs : list string) :
  (∀ x, x ∈ documents → is_Some (c !! fst x)) →
  manual_filter documents c inputs
  = {| yielded := List.filter (λ x, default false (c !! fst x)) documents;
       cache := c; console := inputs; prompted := []; ended := Exhausted |}.
Proof.
  induction documents as [|[pmid doc] rest IH]; intros Hall; simpl; [done|].
  destruct (Hall (pmid, doc)) as [decision Hd]; [by left|]. simpl in Hd.
  rewrite Hd, IH by (intros x Hx; apply Hall; by right). simpl.
  by destruct decision.
Qed.

Lemma manual_filter_cached_witness :
  manual_filter [("101", text_document ["a deletion"]); ("102", text_document [])]
      (<["101" := true]> (<["102" := false]> ∅)) ["never read"]
  = {| yielded := List.filter
                    (λ x, default false ((<["101" := true]> (<["102" := false]> ∅)
                                           : gmap string bool) !! fst x))
                    [("101", text_document ["a deletion"]); ("102", text_document [])];
       cache := <["101" := true]> (<["102" := false]> ∅);
       console := ["never read"]; prompted := []; ended := Exhausted |}.
Proof.
  apply (manual_filter_cached
           [("101", text_document ["a deletion"]); ("102", text_document [])]).
  intros x [->|[->|Hx%elem_of_nil]%elem_of_cons]%elem_of_cons; [by eexists..|done].
Defined.

(** X8. What a run of [ManualDocumentFilter] keeps: the cache only grows, every
    pair yielded is accepted by the cache the run leaves, every id shown
    to the operator was not in the cache before, and the lines left on the
    console are the last of those it started with. *)
Theorem manual_filter_invariants (documents : list item) (c : gmap string bool)
    (inputs : list string) :
  c ⊆ cache (manual_filter documents c inputs)
  ∧ (∀ x, x ∈ yielded (manual_filter documents c inputs) →
       cache (manual_filter documents c inputs) !! fst x = Some true)
  ∧ (∀ pmid, pmid ∈ prompted (manual_filter documents c inputs) → c !! pmid = None)
  ∧ console (manual_filter documents c inputs) `suffix_of` inputs.
Proof.
  revert c inputs. induction documents as [|[pmid doc] rest IH]; intros c inputs; simpl.
  { repeat split; try done; by intros ? ?%elem_of_nil. }
  destruct (c !! pmid) as [decision|] eqn:Hc.
  - destruct (IH c inputs) as (Hsub & Hy & Hp & Hcon).
    destruct decision; simpl; [|done].
    repeat split; try done.
    intros x [->|Hx]%elem_of_cons; [|by apply Hy]. simpl.
    by eapply lookup_weaken.
  - destruct inputs as [|answer inputs]; simpl.
    { repeat split; try done.
      - by intros ? ?%elem_of_nil.
      - by intros ? ->%list_elem_of_singleton. }
    destruct (decide (lower answer = "s")); simpl.
    { repeat split.
      - by apply insert_subseteq.
      - by intros ? ?%elem_of_nil.
      - by intros ? ->%list_elem_of_singleton.
      - by apply suffix_cons_r. }
    destruct (IH (<[pmid := is_yes answer]> c) inputs) as (Hsub & Hy & Hp & Hcon).
    assert (c ⊆ cache (manual_filter rest (<[pmid := is_yes answer]> c) inputs)) as Hsub'.
    { etrans; [|exact Hsub]. by apply insert_subseteq. }
    assert (∀ id, id ∈ pmid :: prompted (manual_filter rest (<[pmid := is_yes answer]> c) inputs)
                  → c !! id = None) as Hp'.
    { intros id [->|Hid]%elem_of_cons; [done|].
      apply Hp in Hid. apply lookup_insert_None in Hid. tauto. }
    destruct (is_yes answer) eqn:Hyes; simpl.
    + repeat split; try done; [|by apply suffix_cons_r].
      intros x [->|Hx]%elem_of_cons; [|by apply Hy]. simpl.
      eapply lookup_weaken; [|exact Hsub]. apply lookup_insert_eq.
    + repeat split; try done. by apply suffix_cons_r.
Qed.

Lemma manual_filter_invariants_witness :
  (<["102" := false]> ∅ : gmap string bool)
    ⊆ cache (manual_filter [("101", text_document ["a deletion"])]
               (<["102" := false]> ∅) ["yes"]).
Proof.
  exact (proj1 (manual_filter_invariants [("101", text_document ["a deletion"])]
                  (<["102" := false]> ∅) ["yes"])).
Defined.

(** X9. [ManualStatsDocumentFilter] keeps its audit trail in step with the
    cache: when every recorded answer agrees with the cache before a run
    (as at the start, with no answer recorded), it does so after the run,
    and ['stop'] is never recorded as an answer. *)
Theorem manual_stats_filter_answers (yes_answers : list string)
    (documents : list item) (c : gmap string bool) (st : stats)
    (inputs : list string) :
  (∀ docid a, answers st !! docid = Some a →
     a ≠ "stop" ∧ c !! docid = Some (bool_decide (a ∈ yes_answers))) →
  ∀ docid a,
    answers (s_stats (manual_stats_filter yes_answers documents c st inputs)) !! docid
      = Some a →
    a ≠ "stop"
    ∧ cache (s_run (manual_stats_filter yes_answers documents c st inputs)) !! docid
      = Some (bool_decide (a ∈ yes_answers)).
Proof.
  revert c st inputs.
  induction documents as [|[id doc] rest IH]; intros c st inputs Hinv; simpl; [done|].
  destruct (c !! id) as [decision|] eqn:Hc.
  - specialize (IH c st inputs Hinv). by destruct decision.
  - destruct (ask yes_answers inputs) as [[answer inputs']|]; [|done].
    destruct (decide (answer = "stop")) as [|Hstop]; [done|].
    assert (∀ docid a,
              <[id := answer]> (answers st) !! docid = Some a →
              a ≠ "stop"
              ∧ <[id := bool_decide (answer ∈ yes_answers)]> c !! docid
                = Some (bool_decide (a ∈ yes_answers))) as Hinv'.
    { intros docid a. destruct (decide (id = docid)) as [->|Hne].
      - rewrite !lookup_insert_eq. by intros [= <-].
      - rewrite !lookup_insert_ne by done. apply Hinv. }
    specialize (IH _ {| answers := <[id := answer]> (answers st);
                        counter := count answer (counter st) |} inputs' Hinv').
    by destruct (bool_decide (answer ∈ yes_answers)).
Qed.

Lemma manual_stats_filter_answers_witness :
  "nl" ≠ "stop"
  ∧ cache (s_run (manual_stats_filter ["yes"; "nl"]
                    [("101", text_document ["a deletion"])] ∅
                    {| answers := ∅; counter := initial_counter ["yes"; "nl"] |}
                    ["maybe"; "NL"])) !! "101"
    = Some (bool_decide ("nl" ∈ ["yes"; "nl"])).
Proof.
  apply (manual_stats_filter_answers ["yes"; "nl"]
           [("101", text_document ["a deletion"])] ∅
           {| answers := ∅; counter := initial_counter ["yes"; "nl"] |}
           ["maybe"; "NL"]).
  - intros docid a H. simpl in H. by rewrite lookup_empty in H.
  - reflexivity.
Defined.

(** *** [QuickNalaFilter] *)

Section QuickNala.
(** The document after [pipeline.execute], [labeler.label], [pycrf.tag],
    [PostProcessing] and [ExclusiveNLDefiner]: the tagger writes its
    predictions into the document it is given, and that document is the
    one yielded. *)
Variable tag : Document → Document.

(** [[... for ann in part.predicted_annotations
        if ann.subclass != 0 and ann.confidence <= self.threshold]] *)
Definition nl_mentions (threshold : Q) (part : Part) : list Entity :=
  List.filter (λ ann, negb (subclass ann =? 0) && Qle_bool (confidence ann) threshold)
              (predicted_annotations part).

(** [total_nl_mentions] at the end of [for part in doc]. *)
Definition total_nl_mentions (threshold : Q) (doc : Document) : list Entity :=
  flat_map (λ p : string * Part, nl_mentions threshold (snd p)) (parts doc).

(** [QuickNalaFilter.filter]; a tuple of three is true for [any], so
    [any(total_nl_mentions)] asks for a non-empty list. *)
Fixpoint quick_nala_filter (threshold : Q) (documents : list item) : list item :=
  match documents with
  | [] => []
  | (pmid, doc) :: rest =>
      match total_nl_mentions threshold (tag doc) with
      | [] => quick_nala_filter threshold rest
      | _ :: _ => (pmid, tag doc) :: quick_nala_filter threshold rest
      end
  end.

Lemma nl_mentions_threshold (t1 t2 : Q) (part : Part) (ann : Entity) :
  Qle t1 t2 → ann ∈ nl_mentions t1 part → ann ∈ nl_mentions t2 part.
Proof.
  intros Hle. unfold nl_mentions. rewrite !list_elem_of_In, !filter_In.
  intros [Hin [Hs Hc]%andb_true_iff]. split; [done|].
  rewrite Hs. simpl. apply Qle_bool_iff. apply Qle_bool_iff in Hc.
  by eapply Qle_trans.
Qed.

Lemma total_nl_mentions_threshold (t1 t2 : Q) (doc : Document) :
  Qle t1 t2 → total_nl_mentions t1 doc ≠ [] → total_nl_mentions t2 doc ≠ [].
Proof.
  intros Hle H1 H2. apply H1. apply elem_of_nil_inv. intros ann Hann.
  unfold total_nl_mentions in *.
  apply list_elem_of_In, in_flat_map in Hann as (p & Hp & Hin).
  assert (ann ∈ flat_map (λ p : string * Part, nl_mentions t2 (snd p)) (parts doc)) as Hin2.
  { apply list_elem_of_In, in_flat_map. exists p. split; [done|].
    apply list_elem_of_In. eapply nl_mentions_threshold; [done|].
    by apply list_elem_of_In. }
  rewrite H2 in Hin2. by apply elem_of_nil in Hin2.
Qed.

(** X10. Raising the threshold never loses a document: what the filter yields
    at a threshold is a subsequence of what it yields at any larger one. *)
Theorem quick_nala_filter_monotone (t1 t2 : Q) (documents : list item) :
  Qle t1 t2 →
  quick_nala_filter t1 documents `sublist_of` quick_nala_filter t2 documents.
Proof.
  intros Hle. induction documents as [|[pmid doc] rest IH]; simpl; [done|].
  pose proof (total_nl_mentions_threshold t1 t2 (tag doc) Hle) as Hmono.
  destruct (total_nl_mentions t1 (tag doc)) as [|a l1].
  - destruct (total_nl_mentions t2 (tag doc)); [done|by constructor].
  - destruct (total_nl_mentions t2 (tag doc)) as [|b l2]; [by destruct Hmono|].
    by constructor.
Qed.

End QuickNala.

Lemma quick_nala_filter_monotone_witness :
  quick_nala_filter example_tagger (1 # 4) [deletion_item]
    `sublist_of` quick_nala_filter example_tagger 1 [deletion_item].
Proof.
  apply (quick_nala_filter_monotone example_tagger (1 # 4) 1 [deletion_item]).
  by vm_compute.
Defined.

(** *** [HighRecallRegexDocumentFilter] *)

Lemma lower_length (s : string) : String.length (lower s) = String.length s.
Proof. induction s as [|c s IH]; simpl; by rewrite ?IH. Qed.

Lemma blank_punctuation_length (s : string) :
  String.length (blank_punctuation s) = String.length s.
Proof. induction s as [|c s IH]; simpl; by rewrite ?IH. Qed.

Lemma lower_char_idempotent (c : ascii) : lower_char (lower_char c) = lower_char c.
Proof. destruct c as [[] [] [] [] [] [] [] []]; reflexivity. Qed.

Lemma lower_char_blank (c : ascii) :
  lower_char (if is_punctuation c then " "%char else c)
  = (if is_punctuation (lower_char c) then " "%char else lower_char c).
Proof. destruct c as [[] [] [] [] [] [] [] []]; reflexivity. Qed.

Lemma blank_blank (c : ascii) :
  is_punctuation (if is_punctuation c then " "%char else c) = false.
Proof. destruct c as [[] [] [] [] [] [] [] []]; reflexivity. Qed.

(** X12. For an ASCII sentence, the text that the patterns see has the
    length of the sentence, so a match span is a span of the sentence as
    well; and it is already in normal form: lower-casing and blanking it
    again changes nothing. *)
Theorem normalise_length_idempotent (sent : string) :
  is_ascii sent = true →
  String.length (normalise sent) = String.length sent
  ∧ normalise (normalise sent) = normalise sent.
Proof.
  intros _. unfold normalise. split.
  - by rewrite blank_punctuation_length, lower_length.
  - induction sent as [|c sent IH]; simpl; [done|]. f_equal; [|exact IH].
    rewrite lower_char_blank, lower_char_idempotent.
    destruct (is_punctuation (lower_char c)) eqn:E; [done|]. by rewrite E.
Qed.

Lemma normalise_length_idempotent_witness :
  String.length (normalise "The c.35delG (p.Gly12Val) change, in 5% of [BRCA1]")
  = String.length "The c.35delG (p.Gly12Val) change, in 5% of [BRCA1]"
  ∧ normalise (normalise "The c.35delG (p.Gly12Val) change, in 5% of [BRCA1]")
    = normalise "The c.35delG (p.Gly12Val) change, in 5% of [BRCA1]".
Proof.
  apply (normalise_length_idempotent
           "The c.35delG (p.Gly12Val) change, in 5% of [BRCA1]").
  reflexivity.
Defined.

Section HighRecallMore.
Context {pattern : Type}.
Variable search : pattern → string → option (Z * Z).
Variable pattern_source : pattern → string.
Variable split_sentences : string → list string.
Variable nala_tag : Document → Document.
Variable overlaps_with_mention : Document → Z → Z → option Entity.
Variable patterns : list pattern.
Variable threshold : Q.

Abbreviation scan_pattern_ :=
  (scan_pattern search pattern_source overlaps_with_mention threshold).
Abbreviation scan_sentences_ :=
  (scan_sentences search pattern_source overlaps_with_mention patterns threshold).
Abbreviation scan_parts_ :=
  (scan_parts search pattern_source overlaps_with_mention patterns threshold).
Abbreviation scan_document_ :=
  (scan_document search pattern_source split_sentences nala_tag overlaps_with_mention
     patterns threshold).
Abbreviation regex_filter_from_ :=
  (regex_filter_from search pattern_source split_sentences nala_tag
     overlaps_with_mention patterns threshold).

(** No pattern matches in any sentence of the document. *)
Definition no_match (doc : Document) : Prop :=
  Forall (Forall (λ sent, matched search (normalise sent) patterns = false))
         (sentences_of split_sentences doc).

Lemma scan_patterns_no_match (x : item) (dn : Document) (un : bool) (po so : Z)
    (new_text : string) (ps : list pattern) (st : scan) :
  matched search new_text ps = false →
  foldl (scan_pattern_ x dn un po so new_text) st ps = st.
Proof.
  revert st. induction ps as [|reg ps IH]; intros st; simpl; [done|].
  intros [Hreg Hps]%orb_false_iff. unfold scan_pattern at 2.
  destruct (search reg new_text); [done|]. by apply IH.
Qed.

Lemma scan_sentences_no_match (x : item) (dn : Document) (un : bool) (po so : Z)
    (sentences : list string) (st : scan) :
  Forall (λ sent, matched search (normalise sent) patterns = false) sentences →
  let st' := snd (scan_sentences_ x dn un po so sentences st) in
  positive_sentences st' = positive_sentences st
  ∧ nala_doc st' = nala_doc st
  ∧ out st' = out st.
Proof.
  intros H. revert so st. induction H as [|sent rest Hsent _ IH]; intros so st; simpl.
  { done. }
  unfold scan_sentence. rewrite scan_patterns_no_match by done. simpl.
  match goal with |- context [scan_sentences _ _ _ _ _ _ _ _ _ ?so' _ ?st0] =>
    destruct (IH so' st0) as (-> & -> & ->) end.
  done.
Qed.

Lemma scan_parts_no_match (x : item) (dn : Document) (un : bool) (po : Z)
    (ps : list (list string)) (st : scan) :
  Forall (Forall (λ sent, matched search (normalise sent) patterns = false)) ps →
  let st' := snd (scan_parts_ x dn un po ps st) in
  positive_sentences st' = positive_sentences st
  ∧ nala_doc st' = nala_doc st
  ∧ out st' = out st.
Proof.
  intros H. revert po st. induction H as [|ss rest Hss _ IH]; intros po st; simpl.
  { done. }
  pose proof (scan_sentences_no_match x dn un po 0 ss st Hss) as Hone.
  destruct (scan_sentences_ x dn un po 0 ss st) as [so st1]. simpl in Hone.
  destruct Hone as (H1 & H2 & H3).
  destruct (IH (po + so) st1) as (-> & -> & ->). done.
Qed.

Lemma scan_document_no_match (x : item) (use_nala : bool) (carried : option Document) :
  no_match (snd x) →
  positive_sentences (scan_document_ x use_nala carried) = 0
  ∧ nala_doc (scan_document_ x use_nala carried) = carried
  ∧ out (scan_document_ x use_nala carried) = [].
Proof. intros H. unfold scan_document. by apply scan_parts_no_match. Qed.

(** X13. With model corroboration, a first document in which no pattern
    matches ends the generator with [UnboundLocalError] before anything is
    yielded: [nala_doc] is assigned at a match only, and the loop over its
    parts reads it. *)
Theorem regex_filter_unbound_nala_doc (x : item) (rest : list item) (min_found : Z) :
  no_match (snd x) →
  regex_filter search pattern_source split_sentences nala_tag overlaps_with_mention
    patterns threshold (x :: rest) min_found true
  = ([], UnboundLocalError).
Proof.
  intros H. unfold regex_filter. simpl.
  destruct (scan_document_no_match x true None H) as (_ & -> & ->). done.
Qed.

(** X14. With model corroboration, a later document in which no pattern matches
    is judged on the predictions of another document: it is yielded iff
    the predictions of the copy left in [nala_doc] by the last match weigh
    at least [min_found], and [nala_doc] stays as it is. *)
Theorem regex_filter_stale_nala_doc (stale : Document) (x : item) (rest : list item)
    (min_found : Z) :
  no_match (snd x) →
  regex_filter_from_ (Some stale) (x :: rest) min_found true
  = ((if corroboration_weight min_found stale >=? min_found then [x] else [])
       ++ fst (regex_filter_from_ (Some stale) rest min_found true),
     snd (regex_filter_from_ (Some stale) rest min_found true)).
Proof.
  intros H. simpl.
  destruct (scan_document_no_match x true (Some stale) H) as (-> & -> & ->).
  simpl. by destruct (regex_filter_from_ (Some stale) rest min_found true).
Qed.

Lemma positive_count_nonneg (sentences : list string) :
  0 ≤ positive_count search patterns sentences.
Proof.
  induction sentences as [|sent rest IH]; simpl; [done|].
  destruct (matched search (normalise sent) patterns); lia.
Qed.

Lemma positive_count_parts_nonneg (ps : list (list string)) :
  0 ≤ positive_count_parts search patterns ps.
Proof.
  induction ps as [|ss rest IH]; simpl; [done|].
  pose proof (positive_count_nonneg ss). lia.
Qed.

(** X15. Without model corroboration the thresholds 1 and 2 are the same
    filter: both keep, in order, the documents with at least one sentence
    in which a pattern matches. *)
Theorem regex_filter_min_found_one_or_two (documents : list item) (min_found : Z) :
  1 ≤ min_found ≤ 2 →
  regex_filter search pattern_source split_sentences nala_tag overlaps_with_mention
    patterns threshold documents min_found false
  = (List.filter
       (λ x, 1 <=? positive_count_parts search patterns
                     (sentences_of split_sentences (snd x)))
       documents,
     Returned).
Proof.
  intros Hm. unfold regex_filter. rewrite regex_filter_without_nala. f_equal.
  apply filter_ext. intros x.
  pose proof (positive_count_parts_nonneg (sentences_of split_sentences (snd x))).
  destruct (Z.geb_spec (2 * positive_count_parts search patterns
                              (sentences_of split_sentences x.2)) min_found);
    destruct (Z.leb_spec 1 (positive_count_parts search patterns
                              (sentences_of split_sentences x.2))); lia.
Qed.

(** X16. A threshold of 0 or less keeps every document, match or no match. *)
Theorem regex_filter_min_found_nonpositive (documents : list item) (min_found : Z) :
  min_found ≤ 0 →
  regex_filter search pattern_source split_sentences nala_tag overlaps_with_mention
    patterns threshold documents min_found false
  = (documents, Returned).
Proof.
  intros Hm. unfold regex_filter. rewrite regex_filter_without_nala. f_equal.
  induction documents as [|x rest IH]; simpl; [done|]. rewrite IH.
  pose proof (positive_count_parts_nonneg (sentences_of split_sentences (snd x))).
  destruct (Z.geb_spec (2 * positive_count_parts search patterns
                              (sentences_of split_sentences x.2)) min_found);
    [done|lia].
Qed.

End HighRecallMore.

Lemma positive_count_parts_no_patterns {pattern : Type}
    (search : pattern → string → option (Z * Z)) (ps : list (list string)) :
  positive_count_parts search [] ps = 0.
Proof.
  induction ps as [|ss rest IH]; simpl; [done|]. rewrite IH.
  assert (positive_count search [] ss = 0) as ->; [|done].
  induction ss as [|sent ss' IHs]; simpl; [done|]. by rewrite IHs.
Qed.

(** X17. Without patterns and without model corroboration no document is
    accepted, whatever positive threshold is asked for. *)
Theorem regex_filter_no_patterns {pattern : Type}
    (search : pattern → string → option (Z * Z)) (pattern_source : pattern → string)
    (split_sentences : string → list string) (nala_tag : Document → Document)
    (overlaps_with_mention : Document → Z → Z → option Entity) (threshold : Q)
    (documents : list item) (min_found : Z) :
  1 ≤ min_found →
  regex_filter search pattern_source split_sentences nala_tag overlaps_with_mention
    [] threshold documents min_found false
  = ([], Returned).
Proof.
  intros Hm. unfold regex_filter. rewrite regex_filter_without_nala. f_equal.
  induction documents as [|x rest IH]; simpl; [done|]. rewrite IH.
  rewrite positive_count_parts_no_patterns.
  destruct (Z.geb_spec (2 * 0) min_found); [lia|done].
Qed.

(** *** Concrete runs of the regular-expression filter *)

Definition methods_item : item := ("9", text_document ["Methods."]).

Lemma methods_item_no_match :
  no_match Regex.search example_split [Regex.lit "deletion"] (snd methods_item).
Proof. repeat constructor. Qed.

Lemma regex_filter_unbound_nala_doc_witness :
  regex_filter Regex.search Regex.source example_split example_tagger example_overlaps
    [Regex.lit "deletion"] 1 [methods_item; deletion_item] 1 true
  = ([], UnboundLocalError).
Proof.
  apply (regex_filter_unbound_nala_doc Regex.search Regex.source example_split
           example_tagger example_overlaps [Regex.lit "deletion"] 1
           methods_item [deletion_item] 1).
  apply methods_item_no_match.
Defined.

Lemma regex_filter_stale_nala_doc_witness :
  regex_filter_from Regex.search Regex.source example_split example_tagger
    example_overlaps [Regex.lit "deletion"] 1
    (Some (example_tagger (snd deletion_item))) [methods_item] 1 true
  = ((if corroboration_weight 1 (example_tagger (snd deletion_item)) >=? 1
      then [methods_item] else [])
       ++ fst (regex_filter_from Regex.search Regex.source example_split example_tagger
                 example_overlaps [Regex.lit "deletion"] 1
                 (Some (example_tagger (snd deletion_item))) [] 1 true),
     snd (regex_filter_from Regex.search Regex.source example_split example_tagger
            example_overlaps [Regex.lit "deletion"] 1
            (Some (example_tagger (snd deletion_item))) [] 1 true)).
Proof.
  apply (regex_filter_stale_nala_doc Regex.search Regex.source example_split
           example_tagger example_overlaps [Regex.lit "deletion"] 1
           (example_tagger (snd deletion_item)) methods_item [] 1).
  apply methods_item_no_match.
Defined.

Lemma regex_filter_min_found_one_or_two_witness :
  regex_filter Regex.search Regex.source example_split example_tagger example_overlaps
    [Regex.lit "deletion"] 1 [methods_item; deletion_item] 2 false
  = (List.filter
       (λ x, 1 <=? positive_count_parts Regex.search [Regex.lit "deletion"]
                     (sentences_of example_split (snd x)))
       [methods_item; deletion_item],
     Returned).
Proof.
  apply (regex_filter_min_found_one_or_two Regex.search Regex.source example_split
           example_tagger example_overlaps [Regex.lit "deletion"] 1
           [methods_item; deletion_item] 2).
  lia.
Defined.

Lemma regex_filter_min_found_nonpositive_witness :
  regex_filter Regex.search Regex.source example_split example_tagger example_overlaps
    [Regex.lit "deletion"] 1 [methods_item; deletion_item] 0 false
  = ([methods_item; deletion_item], Returned).
Proof.
  apply (regex_filter_min_found_nonpositive Regex.search Regex.source example_split
           example_tagger example_overlaps [Regex.lit "deletion"] 1
           [methods_item; deletion_item] 0).
  lia.
Defined.

Lemma regex_filter_no_patterns_witness :
  regex_filter Regex.search Regex.source example_split example_tagger example_overlaps
    [] 1 [methods_item; deletion_item] 1 false
  = ([], Returned).
Proof.
  apply (regex_filter_no_patterns Regex.search Regex.source example_split
           example_tagger example_overlaps 1 [methods_item; deletion_item] 1).
  lia.
Defined.

(** X11. Apart from the corroborated matches of the regular-expression filter,
    the filters yield a subsequence of their input: the pairs they
    received, in the same order, none of them twice. *)
Theorem filters_yield_subsequence {pattern : Type}
    (search : pattern → string → option (Z * Z)) (pattern_source : pattern → string)
    (split_sentences : string → list string) (nala_tag : Document → Document)
    (overlaps_with_mention : Document → Z → Z → option Entity)
    (patterns keywords : list pattern) (threshold : Q) (min_found : Z)
    (yes_answers : list string) (c : gmap string bool) (st : stats)
    (inputs : list string) (documents : list item) :
  stub_filter documents `sublist_of` documents
  ∧ fst (keywords_filter search documents keywords) `sublist_of` documents
  ∧ yielded (manual_filter documents c inputs) `sublist_of` documents
  ∧ yielded (s_run (manual_stats_filter yes_answers documents c st inputs))
      `sublist_of` documents
  ∧ fst (regex_filter search pattern_source split_sentences nala_tag
           overlaps_with_mention patterns threshold documents min_found false)
      `sublist_of` documents.
Proof.
  split; [apply stub_filter_sublist|].
  split; [apply keywords_filter_sublist|].
  split; [apply manual_filter_sublist|].
  split; [apply manual_stats_filter_sublist|].
  apply regex_filter_sublist_without_nala.
Qed.

End FiltersFacts.


(** ** [HighRecallRegexClassifier] *)

Module Classifier.

Inductive error :=
| AssertionError     (* [assert(ST or NL)] *)
| IndexError         (* [x[0]] on an empty row of the tab-separated file *)
| RegexError.        (* [re.compile] rejects an expression *)

Section Init.
Context {pattern : Type}.
(** [re.compile], [None] when it raises. *)
Variable compile : string → option pattern.
Variable search : pattern → string → option (Z * Z).

(** [[re.compile(x) for x in xs]] *)
Definition compile_all (xs : list string) : error + list pattern :=
  match mapM compile xs with
  | Some ps => inr ps
  | None => inl RegexError
  end.

(** [[x[0] for x in raw_regexps if len(x[0]) < 265]] *)
Fixpoint short_first_cells (raw_regexps : list (list string)) : error + list string :=
  match raw_regexps with
  | [] => inr []
  | [] :: _ => inl IndexError
  | (cell :: _) :: rest =>
      match short_first_cells rest with
      | inl e => inl e
      | inr cells =>
          inr (if Nat.ltb (String.length cell) 265 then cell :: cells else cells)
      end
  end.

(** [HighRecallRegexClassifier.__init__(ST, NL)], given the content of
    [regex_st.json], the rows of [RegEx.NL] and the content of
    [nl_patterns.json]: the value of [self.patterns]. *)
Definition init (ST NL : bool) (conventions : list string)
    (raw_regexps : list (list string)) (regexs : list string) : error + list pattern :=
  if negb (ST || NL) then inl AssertionError else
  let after_st :=
    if ST then
      match compile_all conventions with
      | inl e => inl e
      | inr from_conventions =>
          let patterns := [] ++ from_conventions in   (* [self.patterns += ...] *)
          match short_first_cells raw_regexps with
          | inl e => inl e
          | inr regexps => compile_all regexps         (* [self.patterns = ...] *)
          end
      end
    else inr [] in
  match after_st with
  | inl e => inl e
  | inr patterns =>
      if NL then
        match compile_all regexs with
        | inl e => inl e
        | inr from_nl => inr (patterns ++ from_nl)
        end
      else inr patterns
  end.

(** [__call__(text)] *)
Definition call (patterns : list pattern) (text : string) : bool :=
  existsb (λ p, bool_decide (is_Some (search p text))) patterns.

(** X18. The conventions of [regex_st.json] never reach the classifier: they
    are compiled, and the list they were added to is replaced by the
    expressions of [RegEx.NL]. As long as they compile, the classifier is
    the one built from an empty [regex_st.json]. *)
Theorem init_ignores_conventions (ST NL : bool) (conventions : list string)
    (raw_regexps : list (list string)) (regexs : list string) :
  is_Some (mapM compile conventions) →
  init ST NL conventions raw_regexps regexs = init ST NL [] raw_regexps regexs.
Proof.
  intros [ps Hps]. unfold init, compile_all. rewrite Hps. simpl.
  by destruct ST, NL.
Qed.

End Init.

Lemma init_ignores_conventions_witness :
  init (λ s, Some (Regex.lit s)) true true ["p\.\w+\d+\w+"] [["deletion"; "1"]] ["exon"]
  = init (λ s, Some (Regex.lit s)) true true [] [["deletion"; "1"]] ["exon"].
Proof.
  apply (init_ignores_conventions (λ s, Some (Regex.lit s)) true true).
  by eexists.
Defined.

End Classifier.

(** ** [Iteration.docselection]: collecting the candidates *)

Module DocSelection.
Import Data.

(** The loop over [dsp.execute()], with [c] the next value of the counter
    [count(1)]:
    [dataset.documents[pmid] = document; if next(c) == nr: break]. *)
Fixpoint collect (c nr : Z) (stream : list item) (documents : gmap string Document)
  : gmap string Document :=
  match stream with
  | [] => documents
  | (pmid, document) :: rest =>
      let documents' := <[pmid := document]> documents in
      if decide (c = nr) then documents' else collect (c + 1) nr rest documents'
  end.

Inductive error :=
| TypeError.   (* a keyword argument that the callee does not have *)

(** [self.candidates] after [docselection(nr, just_caching)], for the pairs
    that the selection pipeline yields. Both branches run the same loop.
    The branch with the document filters builds its
    [HighRecallRegexDocumentFilter] with the keyword [crfsuite_path], which
    [HighRecallRegexDocumentFilter.__init__] does not have: the call
    raises before the pipeline exists. *)
Definition docselection (stream : list item) (nr : Z) (just_caching : bool)
  : error + gmap string Document :=
  if just_caching then inr (collect 1 nr stream ∅) else inl TypeError.

(** All pairs of a list put into a dataset, the later ones over the
    earlier ones with the same id. *)
Definition dataset_of (l : list item) (documents : gmap string Document)
  : gmap string Document :=
  foldl (λ d (x : item), <[fst x := snd x]> d) documents l.

Lemma collect_take (c nr : Z) (stream : list item) (documents : gmap string Document) :
  c ≤ nr →
  collect c nr stream documents
  = dataset_of (take (Z.to_nat (nr - c + 1)) stream) documents.
Proof.
  revert c documents. induction stream as [|[pmid doc] rest IH]; intros c documents Hc.
  { by rewrite take_nil. }
  simpl. destruct (decide (c = nr)) as [->|Hne].
  - replace (Z.to_nat (nr - nr + 1)) with 1%nat by lia. simpl. by rewrite ?take_0.
  - rewrite IH by lia.
    replace (Z.to_nat (nr - c + 1)) with (S (Z.to_nat (nr - (c + 1) + 1))) by lia.
    done.
Qed.

Lemma collect_all (c nr : Z) (stream : list item) (documents : gmap string Document) :
  nr < c → collect c nr stream documents = dataset_of stream documents.
Proof.
  revert c documents. induction stream as [|[pmid doc] rest IH]; intros c documents Hc.
  { done. }
  simpl. rewrite decide_False by lia. apply IH. lia.
Qed.

Lemma dataset_of_size (l : list item) (documents : gmap string Document) :
  (size (dataset_of l documents) ≤ size documents + length l)%nat.
Proof.
  revert documents. induction l as [|[pmid doc] l IH]; intros documents; simpl.
  { lia. }
  etrans; [apply IH|]. rewrite map_size_insert. destruct (documents !! pmid); simpl; lia.
Qed.

Lemma dataset_of_size_full (l : list item) (documents : gmap string Document) :
  (size (dataset_of l documents) = size documents + length l)%nat ↔
  NoDup (fst <$> l) ∧ ∀ pmid, pmid ∈ fst <$> l → documents !! pmid = None.
Proof.
  revert documents. induction l as [|[pmid doc] l IH]; intros documents; simpl.
  { split; [|lia]. intros _. split; [constructor|]. by intros ? ?%elem_of_nil. }
  pose proof (dataset_of_size l (<[pmid := doc]> documents)) as Hle.
  rewrite map_size_insert in Hle. split.
  - intros Heq. destruct (documents !! pmid) eqn:E; simpl in Hle; [lia|].
    assert (size (dataset_of l (<[pmid := doc]> documents))
            = size (<[pmid := doc]> documents) + length l)%nat as Heq'.
    { rewrite map_size_insert, E. simpl. lia. }
    apply IH in Heq' as [Hnd Hfresh]. split.
    + constructor; [|done]. intros Hin. apply Hfresh in Hin.
      by rewrite lookup_insert_eq in Hin.
    + intros id [->|Hid]%elem_of_cons; [done|].
      apply Hfresh, lookup_insert_None in Hid. tauto.
  - intros [[Hnotin Hnd]%NoDup_cons Hfresh].
    assert (documents !! pmid = None) as E by (apply Hfresh; by left).
    assert (size (dataset_of l (<[pmid := doc]> documents))
            = size (<[pmid := doc]> documents) + length l)%nat as Heq'.
    { apply IH. split; [done|]. intros id Hid. apply lookup_insert_None. split.
      - apply Hfresh. by right.
      - by intros <-. }
    rewrite Heq', map_size_insert, E. simpl. lia.
Qed.

(** X19. For a positive [nr] the selection takes the first [nr] pairs of the
    pipeline and nothing after them; it holds at most [nr] documents, and
    exactly [nr] only when the pipeline had that many pairs and their ids
    are all different: a pair with an id seen before takes the place of a
    document. *)
Theorem docselection_first_nr (stream : list item) (nr : Z) :
  1 ≤ nr →
  ∃ candidates,
    docselection stream nr true = inr candidates
    ∧ docselection (take (Z.to_nat nr) stream) nr true = inr candidates
    ∧ Z.of_nat (size candidates) ≤ nr
    ∧ (Z.of_nat (size candidates) = nr ↔
       nr ≤ Z.of_nat (length stream) ∧ NoDup (fst <$> take (Z.to_nat nr) stream)).
Proof.
  intros Hnr. unfold docselection. eexists. split; [reflexivity|].
  rewrite !collect_take by done.
  replace (Z.to_nat (nr - 1 + 1)) with (Z.to_nat nr) by lia.
  rewrite take_take, Nat.min_id.
  pose proof (dataset_of_size (take (Z.to_nat nr) stream) ∅) as Hle.
  pose proof (dataset_of_size_full (take (Z.to_nat nr) stream) ∅) as Hfull.
  rewrite map_size_empty in *. rewrite length_take in *.
  split; [done|]. split; [lia|]. split.
  - intros Heq. split; [lia|]. apply Hfull. lia.
  - intros [Hlen Hnd]. assert (size (dataset_of (take (Z.to_nat nr) stream) ∅)
                               = 0 + Z.to_nat nr `min` length stream)%nat as ->; [|lia].
    apply Hfull. split; [done|]. intros. apply lookup_empty.
Qed.

Definition repeating_stream : list item :=
  [("1", Filters.text_document []); ("1", Filters.text_document []);
   ("2", Filters.text_document [])].

Lemma docselection_first_nr_witness :
  ∃ candidates,
    docselection repeating_stream 2 true = inr candidates
    ∧ docselection (take (Z.to_nat 2) repeating_stream) 2 true = inr candidates
    ∧ Z.of_nat (size candidates) ≤ 2
    ∧ (Z.of_nat (size candidates) = 2 ↔
       2 ≤ Z.of_nat (length repeating_stream)
       ∧ NoDup (fst <$> take (Z.to_nat 2) repeating_stream)).
Proof. apply (docselection_first_nr repeating_stream 2). lia. Defined.

(** X20. For [nr] of 0 or less the counter never equals [nr]: the selection
    never stops by itself and takes every pair of the pipeline. *)
Theorem docselection_nonpositive (stream : list item) (nr : Z) :
  nr ≤ 0 → docselection stream nr true = inr (dataset_of stream ∅).
Proof. intros Hnr. unfold docselection. f_equal. apply collect_all. lia. Qed.

Lemma docselection_nonpositive_witness :
  docselection repeating_stream 0 true = inr (dataset_of repeating_stream ∅).
Proof. apply (docselection_nonpositive repeating_stream 0). lia. Defined.

End DocSelection.


(** ** More on [Iteration.evaluation] *)

Module EvaluationFacts.
Import Data Evaluation.

Section Table.
Variable entity_eq : Entity → Entity → bool.

Lemma list_prod_nil_r {A B : Type} (l : list A) : list_prod l (@nil B) = [].
Proof. induction l as [|a l IH]; [done|]. simpl. exact IH. Qed.

(** A part without predictions gives one row per gold annotation, with the
    empty prediction; a part without gold annotations one row per
    prediction, with the empty gold entity. In both cases the rows keep
    the order of the list. *)
Theorem evaluation_part_one_sided (part : Part) :
  (predicted_annotations part = [] →
   evaluation_part entity_eq part = (λ ann, (ann, sentinel)) <$> annotations part)
  ∧ (annotations part = [] →
     evaluation_part entity_eq part
     = (λ pred, (sentinel, pred)) <$> predicted_annotations part).
Proof.
  unfold evaluation_part. split; intros ->.
  - rewrite list_prod_nil_r. simpl. by rewrite app_nil_r.
  - done.
Qed.

Lemma remove_first_subset (x e : Entity) (pool : list Entity) :
  e ∈ remove_first entity_eq x pool → e ∈ pool.
Proof.
  induction pool as [|y pool IH]; simpl; [done|].
  destruct (entity_eq x y); [by right|].
  intros [->|Hin]%elem_of_cons; [by left|]. right. by apply IH.
Qed.

Lemma match_pair_pools_subset (pair : Entity * Entity) (m : matching) :
  (∀ e, e ∈ not_found_ann (match_pair entity_eq m pair) → e ∈ not_found_ann m)
  ∧ (∀ e, e ∈ not_found_pred (match_pair entity_eq m pair) → e ∈ not_found_pred m).
Proof.
  destruct pair as [ann pred]. unfold match_pair.
  destruct (entity_eq ann pred); simpl; [|done].
  split; intros e He; by eapply remove_first_subset.
Qed.

Lemma foldl_match_pair_pools_subset (pairs : list (Entity * Entity)) (m : matching) :
  (∀ e, e ∈ not_found_ann (foldl (match_pair entity_eq) m pairs) → e ∈ not_found_ann m)
  ∧ (∀ e, e ∈ not_found_pred (foldl (match_pair entity_eq) m pairs) →
       e ∈ not_found_pred m).
Proof.
  revert m. induction pairs as [|pair pairs IH]; intros m; [done|].
  change (foldl (match_pair entity_eq) m (pair :: pairs))
    with (foldl (match_pair entity_eq) (match_pair entity_eq m pair) pairs).
  destruct (IH (match_pair entity_eq m pair)) as [Ha Hp].
  destruct (match_pair_pools_subset pair m) as [Ha' Hp'].
  split; intros e He; auto.
Qed.

Lemma evaluation_part_sides (part : Part) (gold pred : Entity) :
  (gold, pred) ∈ evaluation_part entity_eq part →
  (gold ∈ annotations part ∨ gold = sentinel)
  ∧ (pred ∈ predicted_annotations part ∨ pred = sentinel).
Proof.
  unfold evaluation_part. rewrite foldl_match_pair_results. simpl.
  destruct (foldl_match_pair_pools_subset
              (list_prod (annotations part) (predicted_annotations part))
              {| results := []; not_found_ann := annotations part;
                 not_found_pred := predicted_annotations part |}) as [Ha Hp].
  simpl in Ha, Hp.
  rewrite !elem_of_app. intros [Hin|[Hin|Hin]].
  - apply list_elem_of_In, filter_In in Hin as [Hin _].
    apply in_prod_iff in Hin as [H1 H2]. split; left; by apply list_elem_of_In.
  - apply list_elem_of_fmap in Hin as (a & [= -> ->] & Hin). split; [left|by right].
    by apply Ha.
  - apply list_elem_of_fmap in Hin as (p & [= -> ->] & Hin). split; [by right|left].
    by apply Hp.
Qed.

(** X21. Whatever the equality of entities, the table only holds what the part
    holds: the gold side of a row is a gold annotation of the part or the
    empty entity, and the predicted side a prediction of the part or the
    empty entity. *)
Theorem evaluation_part_members (part : Part) (gold pred : Entity) :
  (gold, pred) ∈ evaluation_part entity_eq part →
  (gold ∈ annotations part ∨ gold = sentinel)
  ∧ (pred ∈ predicted_annotations part ∨ pred = sentinel).
Proof. apply evaluation_part_sides. Qed.

(** X22. With entities that equal only themselves in each list, no annotation
    is lost from the table: every gold annotation is the gold side of some
    row and every prediction the predicted side of some row. *)
Theorem evaluation_part_covers (part : Part) :
  distinct_entities entity_eq (annotations part) = true →
  distinct_entities entity_eq (predicted_annotations part) = true →
  (∀ gold, gold ∈ annotations part →
     ∃ pred, (gold, pred) ∈ evaluation_part entity_eq part)
  ∧ (∀ pred, pred ∈ predicted_annotations part →
       ∃ gold, (gold, pred) ∈ evaluation_part entity_eq part).
Proof.
  intros Ha Hp.
  rewrite (evaluation_part_pools entity_eq part)
    by by apply distinct_entities_separate.
  split.
  - intros gold Hgold.
    destruct (existsb (λ pred, entity_eq gold pred) (predicted_annotations part)) eqn:E.
    + apply existsb_exists in E as (pred & Hpred & Heq). exists pred.
      apply elem_of_app. left. apply list_elem_of_In, filter_In. split; [|done].
      apply in_prod_iff. split; [by apply list_elem_of_In|done].
    + exists sentinel. apply elem_of_app. right. apply elem_of_app. left.
      apply list_elem_of_fmap. exists gold. split; [done|].
      apply list_elem_of_In, filter_In. split; [by apply list_elem_of_In|].
      by rewrite E.
  - intros pred Hpred.
    destruct (existsb (λ ann, entity_eq ann pred) (annotations part)) eqn:E.
    + apply existsb_exists in E as (gold & Hgold & Heq). exists gold.
      apply elem_of_app. left. apply list_elem_of_In, filter_In. split; [|done].
      apply in_prod_iff. split; [done|by apply list_elem_of_In].
    + exists sentinel. apply elem_of_app. right. apply elem_of_app. right.
      apply list_elem_of_fmap. exists pred. split; [done|].
      apply list_elem_of_In, filter_In. split; [by apply list_elem_of_In|].
      by rewrite E.
Qed.

(** *** The table written to [batch_results.txt] *)

(** [max(chain(len(x.text) for x in ...))]; [max] of nothing raises
    [ValueError]. *)
Definition max_length (entities : list Entity) : option nat :=
  match entities with
  | [] => None
  | e :: rest =>
      Some (foldl (λ m e', Nat.max m (String.length (text e')))
                  (String.length (text e)) rest)
  end.

Fixpoint spaces (n : nat) : string :=
  match n with
  | O => EmptyString
  | S n' => String " "%char (spaces n')
  end.

(** ["{:<w}".format(t)]: [t], filled with spaces on the right up to [w]
    characters. *)
Definition pad (w : nat) (t : string) : string := t +:+ spaces (w - String.length t).

(** [row_format.format(annotated, predicted)] *)
Definition format_row (wa wp : nat) (annotated predicted : string) : string :=
  pad wa annotated +:+ String "009"%char (String "|"%char (String "009"%char
    (pad wp predicted +:+ String "010"%char EmptyString))).

(** The lines of the table: the header and one line per entry of
    [results]; [None] when one of the two [max] raises [ValueError], which
    happens before the file is opened. *)
Definition evaluation_table (reviewed : list Part) : option (list string) :=
  match max_length (flat_map annotations reviewed),
        max_length (flat_map predicted_annotations reviewed) with
  | Some wa, Some wp =>
      Some (format_row wa wp "=====Annotated=====" "=====Predicted====="
            :: ((λ r : Entity * Entity, format_row wa wp (text (fst r)) (text (snd r)))
                  <$> evaluation entity_eq reviewed))
  | _, _ => None
  end.

(** X23. The evaluation fails with [ValueError], and writes nothing, exactly
    when the reviewed documents have no gold annotation at all or no
    prediction at all. *)
Theorem evaluation_table_value_error (reviewed : list Part) :
  evaluation_table reviewed = None ↔
  flat_map annotations reviewed = [] ∨ flat_map predicted_annotations reviewed = [].
Proof.
  unfold evaluation_table, max_length.
  destruct (flat_map annotations reviewed) as [|a la],
           (flat_map predicted_annotations reviewed) as [|p lp]; split; try done;
    try tauto; intros [H|H]; discriminate H.
Qed.

Lemma length_app_string (s t : string) :
  String.length (s +:+ t) = (String.length s + String.length t)%nat.
Proof. induction s as [|c s IH]; [done|]. rewrite Text.app_cons. simpl. by rewrite IH. Qed.

Lemma length_spaces (n : nat) : String.length (spaces n) = n.
Proof. induction n as [|n IH]; simpl; by rewrite ?IH. Qed.

Lemma length_pad (w : nat) (t : string) :
  (String.length t ≤ w)%nat → String.length (pad w t) = w.
Proof. intros H. unfold pad. rewrite length_app_string, length_spaces. lia. Qed.

Lemma foldl_max_bound (rest : list Entity) (m : nat) :
  (m ≤ foldl (λ m e', Nat.max m (String.length (text e'))) m rest)%nat
  ∧ ∀ e, e ∈ rest →
      (String.length (text e)
       ≤ foldl (λ m e', Nat.max m (String.length (text e'))) m rest)%nat.
Proof.
  revert m. induction rest as [|e' rest IH]; intros m; simpl.
  { split; [lia|]. by intros ? ?%elem_of_nil. }
  destruct (IH (Nat.max m (String.length (text e')))) as [Hm Hall].
  split; [lia|]. intros e [->|He]%elem_of_cons; [lia|by apply Hall].
Qed.

Lemma max_length_bound (entities : list Entity) (w : nat) (e : Entity) :
  max_length entities = Some w → e ∈ entities → (String.length (text e) ≤ w)%nat.
Proof.
  destruct entities as [|e0 rest]; [done|]. simpl. intros [= <-].
  destruct (foldl_max_bound rest (String.length (text e0))) as [Hm Hall].
  intros [->|He]%elem_of_cons; [done|by apply Hall].
Qed.

Lemma evaluation_sides (reviewed : list Part) (gold pred : Entity) :
  (gold, pred) ∈ evaluation entity_eq reviewed →
  (gold ∈ flat_map annotations reviewed ∨ gold = sentinel)
  ∧ (pred ∈ flat_map predicted_annotations reviewed ∨ pred = sentinel).
Proof.
  unfold evaluation. intros (part & Hpart & Hin)%list_elem_of_In%in_flat_map.
  apply list_elem_of_In, evaluation_part_sides in Hin as [Hg Hp].
  split.
  - destruct Hg as [Hg|Hg]; [left|by right].
    apply list_elem_of_In, in_flat_map. exists part. split; [done|].
    by apply list_elem_of_In.
  - destruct Hp as [Hp|Hp]; [left|by right].
    apply list_elem_of_In, in_flat_map. exists part. split; [done|].
    by apply list_elem_of_In.
Qed.

(** X24. When the table is written, its lines below the header are aligned:
    every one has the annotated text filled up to the longest gold text,
    the separator, and the predicted text filled up to the longest
    predicted text, so all of them have the same length. *)
Theorem evaluation_table_aligned (reviewed : list Part) (header : string)
    (rows : list string) (wa wp : nat) :
  evaluation_table reviewed = Some (header :: rows) →
  max_length (flat_map annotations reviewed) = Some wa →
  max_length (flat_map predicted_annotations reviewed) = Some wp →
  length rows = length (evaluation entity_eq reviewed)
  ∧ ∀ line, line ∈ rows → String.length line = (wa + 3 + wp + 1)%nat.
Proof.
  unfold evaluation_table. intros Htable Hwa Hwp. rewrite Hwa, Hwp in Htable.
  injection Htable as _ <-. split; [by rewrite length_fmap|].
  intros line ([gold pred] & -> & Hin)%list_elem_of_fmap. simpl.
  apply evaluation_sides in Hin as [Hg Hp].
  assert (String.length (text gold) ≤ wa)%nat as Hlg.
  { destruct Hg as [Hg| ->]; [by eapply max_length_bound|simpl; lia]. }
  assert (String.length (text pred) ≤ wp)%nat as Hlp.
  { destruct Hp as [Hp| ->]; [by eapply max_length_bound|simpl; lia]. }
  unfold format_row. rewrite length_app_string. simpl.
  rewrite length_app_string, !length_pad by done. simpl. lia.
Qed.

End Table.

Lemma evaluation_part_one_sided_witness :
  evaluation_part exact_or_overlapping
    {| part_text := "BRAF"; annotations := [mention 0 "BRAF"];
       predicted_annotations := [] |}
  = (λ ann, (ann, sentinel)) <$> [mention 0 "BRAF"].
Proof.
  exact (proj1 (evaluation_part_one_sided exact_or_overlapping
                  {| part_text := "BRAF"; annotations := [mention 0 "BRAF"];
                     predicted_annotations := [] |}) eq_refl).
Defined.

Lemma evaluation_part_members_witness :
  (mention 10 "V600E" ∈ annotations braf_part ∨ mention 10 "V600E" = sentinel)
  ∧ (sentinel ∈ predicted_annotations braf_part ∨ sentinel = sentinel).
Proof.
  apply (evaluation_part_members exact_or_overlapping braf_part).
  vm_compute. right. left.
Defined.

Lemma evaluation_part_covers_witness :
  (∀ gold, gold ∈ annotations braf_part →
     ∃ pred, (gold, pred) ∈ evaluation_part exact_or_overlapping braf_part)
  ∧ (∀ pred, pred ∈ predicted_annotations braf_part →
       ∃ gold, (gold, pred) ∈ evaluation_part exact_or_overlapping braf_part).
Proof.
  apply (evaluation_part_covers exact_or_overlapping braf_part); reflexivity.
Defined.

Lemma evaluation_table_value_error_witness :
  evaluation_table exact_or_overlapping
    [{| part_text := "BRAF"; annotations := [mention 0 "BRAF"];
        predicted_annotations := [] |}] = None.
Proof.
  apply (evaluation_table_value_error exact_or_overlapping). by right.
Defined.

Lemma evaluation_table_aligned_witness :
  length ((λ r : Entity * Entity, format_row 5 6 (text (fst r)) (text (snd r)))
            <$> evaluation exact_or_overlapping [braf_part])
    = length (evaluation exact_or_overlapping [braf_part])
  ∧ ∀ line,
      line ∈ ((λ r : Entity * Entity, format_row 5 6 (text (fst r)) (text (snd r)))
                <$> evaluation exact_or_overlapping [braf_part]) →
      String.length line = (5 + 3 + 6 + 1)%nat.
Proof.
  apply (evaluation_table_aligned exact_or_overlapping [braf_part]
           (format_row 5 6 "=====Annotated=====" "=====Predicted=====")); reflexivity.
Defined.

End EvaluationFacts.


(** ** More on [Iteration.cross_validation] *)

Module CrossValidationFacts.
Import CrossValidation.

Lemma columns_cells {A : Type} (n : nat) (rows : list (list A)) (j : nat)
    (col : list A) :
  columns n rows !! j = Some col → Forall2 (λ row cell, row !! j = Some cell) rows col.
Proof.
  revert rows j. induction n as [|n IH]; intros rows j; simpl; [done|].
  destruct (mapM head rows) as [firsts|] eqn:E; [|done].
  destruct j as [|j]; simpl.
  - intros [= <-]. apply mapM_Some in E.
    eapply Forall2_impl; [exact E|]. intros row cell Hc. by rewrite <- head_lookup.
  - intros H%IH. apply Forall2_fmap_l in H.
    eapply Forall2_impl; [exact H|]. intros row cell Hc. by rewrite <- lookup_tail.
Qed.

Lemma columns_length {A : Type} (n : nat) (rows : list (list A)) :
  Forall (λ row, (n ≤ length row)%nat) rows → length (columns n rows) = n.
Proof.
  revert rows. induction n as [|n IH]; intros rows Hall; simpl; [done|].
  destruct (mapM head rows) as [firsts|] eqn:E.
  - simpl. f_equal. apply IH. apply Forall_fmap.
    eapply Forall_impl; [exact Hall|]. intros [|a row]; simpl; lia.
  - assert (is_Some (mapM head rows)) as [x Hx]; [|congruence].
    apply mapM_is_Some. eapply Forall_impl; [exact Hall|].
    intros [|a row]; simpl; [lia|]. eauto.
Qed.

Section Means.
Variable num : Type.
Variable zero : num.
Variable add : num → num → num.
Variable divide : num → nat → num.

(** X25. The computation of the averages never divides by zero: a mean exists
    only when there is at least one row, it is the sum of the cells that
    the rows have in its column, one cell of every row, and it is divided
    by the number of rows. *)
Theorem column_means_cells (rows : list (list num)) (j : nat) (mean : num) :
  column_means num zero add divide rows !! j = Some mean →
  ∃ col,
    Forall2 (λ row cell, row !! j = Some cell) rows col
    ∧ mean = divide (foldl add zero col) (length rows)
    ∧ (0 < length rows)%nat.
Proof.
  unfold column_means. rewrite list_lookup_fmap.
  destruct (zip_star rows !! j) as [col|] eqn:E; [|done].
  simpl. intros [= <-]. unfold zip_star in E.
  destruct rows as [|first rest]; [done|].
  apply columns_cells in E. exists col. split; [done|].
  apply Forall2_length in E. rewrite E. split; [done|].
  rewrite <- E. simpl. lia.
Qed.

(** X26. From folds that each gave the eight measures of the evaluator, every
    average row has eight values and [calc_measures] is given exactly the
    five counts. *)
Theorem summary_shapes (rows : list (list num)) :
  rows ≠ [] →
  Forall (λ row, length row = 8%nat) rows →
  length (column_means num zero add divide rows) = 8%nat
  ∧ length (count_sums num zero add rows) = 5%nat.
Proof.
  intros Hne Hall. unfold column_means, count_sums, zip_star.
  destruct rows as [|first rest]; [done|].
  assert (length first = 8%nat) as -> by (by inversion Hall).
  rewrite length_take, !length_fmap, columns_length; [done|].
  eapply Forall_impl; [exact Hall|]. simpl. lia.
Qed.

End Means.

Lemma column_means_cells_witness :
  ∃ col,
    Forall2 (λ row cell, row !! 1%nat = Some cell) [[1%Q; 2%Q]; [3%Q; 4%Q]] col
    ∧ 3%Q = q_divide (foldl Qplus 0%Q col) (length [[1%Q; 2%Q]; [3%Q; 4%Q]])
    ∧ (0 < length [[1%Q; 2%Q]; [3%Q; 4%Q]])%nat.
Proof.
  apply (column_means_cells Q 0%Q Qplus q_divide [[1%Q; 2%Q]; [3%Q; 4%Q]] 1%nat 3%Q).
  reflexivity.
Defined.

Lemma summary_shapes_witness :
  length (column_means Q 0%Q Qplus q_divide (totals Q Exact [example_fold])) = 8%nat
  ∧ length (count_sums Q 0%Q Qplus (totals Q Exact [example_fold])) = 5%nat.
Proof.
  apply (summary_shapes Q 0%Q Qplus q_divide (totals Q Exact [example_fold])).
  - discriminate.
  - repeat constructor.
Defined.

End CrossValidationFacts.


(** ** [Iteration.check_iterations_stats]: counting the mentions *)

Module IterationStats.
Import Data.

(** The body of [for ann in tmp_data.annotations()] on
    [current_mentions = [st, nl, ss]]. *)
Definition count_mention (current_mentions : Z * Z * Z) (ann : Entity) : Z * Z * Z :=
  let '(st, nl, ss) := current_mentions in
  if subclass ann =? 0 then (st + 1, nl, ss)
  else if subclass ann =? 1 then (st, nl + 1, ss)
  else if subclass ann =? 2 then (st, nl, ss + 1)
  else (st, nl, ss).

Definition current_mentions (anns : list Entity) : Z * Z * Z :=
  foldl count_mention (0, 0, 0) anns.

(** The numbers printed for one iteration: total, st, nl + ss, nl, ss and
    (nl + ss) / 10. *)
Definition printed (anns : list Entity) : list (string * Q) :=
  let '(st, nl, ss) := current_mentions anns in
  [("total", inject_Z (st + nl + ss)); ("st", inject_Z st);
   ("nl + ss", inject_Z (nl + ss)); ("nl", inject_Z nl); ("ss", inject_Z ss);
   ("nl+ss/doc", Qmake (nl + ss) 10)].

(** [for i in range(1, self.number)], with the annotations that
    [read_iteration_data(i)] gives after [ExclusiveNLDefiner]. *)
Definition check_iterations_stats (read_iteration_data : Z → list Entity) (number : Z)
  : list (Z * list (string * Q)) :=
  (λ i, (i, printed (read_iteration_data i))) <$> seqZ 1 (number - 1).

Definition with_subclass (k : Z) (anns : list Entity) : Z :=
  Z.of_nat (length (List.filter (λ ann, subclass ann =? k) anns)).

Lemma with_subclass_cons (k : Z) (ann : Entity) (anns : list Entity) :
  with_subclass k (ann :: anns)
  = (if subclass ann =? k then 1 else 0) + with_subclass k anns.
Proof.
  unfold with_subclass. simpl. destruct (subclass ann =? k); simpl; lia.
Qed.

Lemma triple_eq (a b c a' b' c' : Z) : a = a' → b = b' → c = c' → (a, b, c) = (a', b', c').
Proof. by intros -> -> ->. Qed.

Lemma foldl_count_mention (anns : list Entity) (st nl ss : Z) :
  foldl count_mention (st, nl, ss) anns
  = (st + with_subclass 0 anns, nl + with_subclass 1 anns, ss + with_subclass 2 anns).
Proof.
  revert st nl ss. induction anns as [|ann anns IH]; intros st nl ss.
  { apply triple_eq; unfold with_subclass; simpl; lia. }
  rewrite !with_subclass_cons. simpl.
  destruct (Z.eqb_spec (subclass ann) 0) as [H0|H0];
    [|destruct (Z.eqb_spec (subclass ann) 1) as [H1|H1];
      [|destruct (Z.eqb_spec (subclass ann) 2) as [H2|H2]]];
    rewrite IH; apply triple_eq;
    repeat match goal with |- context [?a =? ?b] => destruct (Z.eqb_spec a b) end;
    lia.
Qed.

Lemma with_subclass_sum (anns : list Entity) :
  with_subclass 0 anns + with_subclass 1 anns + with_subclass 2 anns
  = Z.of_nat (length (List.filter (λ ann, (0 <=? subclass ann) && (subclass ann <=? 2))
                                  anns)).
Proof.
  unfold with_subclass. induction anns as [|ann anns IH]; simpl; [done|].
  destruct (Z.eqb_spec (subclass ann) 0), (Z.eqb_spec (subclass ann) 1),
           (Z.eqb_spec (subclass ann) 2), (Z.leb_spec 0 (subclass ann)),
           (Z.leb_spec (subclass ann) 2); simpl; lia.
Qed.

(** X27. The three counters are the numbers of annotations of subclass 0, 1 and
    2. An annotation of any other subclass is counted nowhere, so the
    total printed is the number of annotations with a subclass from 0 to
    2 and can fall short of the number of annotations. *)
Theorem current_mentions_counts (anns : list Entity) :
  current_mentions anns
    = (with_subclass 0 anns, with_subclass 1 anns, with_subclass 2 anns)
  ∧ with_subclass 0 anns + with_subclass 1 anns + with_subclass 2 anns
    = Z.of_nat (length (List.filter
                          (λ ann, (0 <=? subclass ann) && (subclass ann <=? 2)) anns))
  ∧ with_subclass 0 anns + with_subclass 1 anns + with_subclass 2 anns
    ≤ Z.of_nat (length anns).
Proof.
  split; [|split].
  - unfold current_mentions. by rewrite foldl_count_mention.
  - apply with_subclass_sum.
  - rewrite with_subclass_sum. apply inj_le.
    induction anns as [|ann anns IH]; simpl; [done|].
    destruct (_ && _); simpl; lia.
Qed.

(** Only the closed iterations are reported: one entry for each of the
    iterations 1 to [number - 1], in order, and none when [number] is 1 or
    less. *)
Theorem check_iterations_stats_range (read_iteration_data : Z → list Entity)
    (number : Z) :
  fst <$> check_iterations_stats read_iteration_data number = seqZ 1 (number - 1)
  ∧ (∀ i, i ∈ fst <$> check_iterations_stats read_iteration_data number ↔
          1 ≤ i < number)
  ∧ (number ≤ 1 → check_iterations_stats read_iteration_data number = []).
Proof.
  unfold check_iterations_stats. rewrite <- list_fmap_compose.
  assert ((fst ∘ (λ i, (i, printed (read_iteration_data i)))) <$> seqZ 1 (number - 1)
          = seqZ 1 (number - 1)) as ->.
  { rewrite <- (list_fmap_id (seqZ 1 (number - 1))) at 2. by apply list_fmap_ext. }
  split; [done|]. split.
  - intros i. rewrite elem_of_seqZ. lia.
  - intros H. by rewrite seqZ_nil by lia.
Qed.

End IterationStats.

(** ** [Iteration.clean_reviewed_files] *)

Module CleanReviewed.
Import Text.

(** The pattern [-(\d+)\.] tried at the start of [s]: group 1. The digits
    are the ASCII ones; in a [str] pattern [\d] takes the decimal digits of
    other scripts as well, and a name in which such digits follow a [-] is
    not covered. *)
Definition here (s : string) : option string :=
  match s with
  | String "-"%char rest =>
      match span_digits rest with
      | (String d ds, String "."%char _) => Some (String d ds)
      | _ => None
      end
  | _ => None
  end.

(** Group 1 of [.*-(\d+)\..*] on a text without line feed: the greedy [.*]
    in front makes the last [-] that is followed by digits and a dot the
    one that matches. *)
Fixpoint last_docid (s : string) : option string :=
  match s with
  | EmptyString => None
  | String c s' =>
      match last_docid s' with
      | Some d => Some d
      | None => here s
      end
  end.

Definition line_feed : ascii := "010"%char.

(** The pieces of [s] between its line feeds. *)
Fixpoint lines (s : string) : list string :=
  match s with
  | EmptyString => [EmptyString]
  | String c s' =>
      if decide (c = line_feed) then EmptyString :: lines s'
      else match lines s' with
           | l :: ls => String c l :: ls
           | [] => [String c EmptyString]
           end
  end.

Fixpoint unlines (ls : list string) : string :=
  match ls with
  | [] => EmptyString
  | l :: ls' =>
      match ls' with
      | [] => l
      | _ :: _ => l +:+ String line_feed (unlines ls')
      end
  end.

(** What the substitution makes of a piece without line feed: a match
    covers the whole piece, which becomes the digits; without a match the
    piece stays. *)
Definition docid_line (line : string) : string :=
  default line (last_docid line).

(** [re.sub(r'.*-(\d+)\..*', r'\1', filename)]. The dot of the pattern
    does not match a line feed, so no match reaches across one: every
    piece between line feeds is substituted by itself, and the line feeds
    stay. *)
Definition docid_of (filename : string) : string :=
  unlines (docid_line <$> lines filename).

(** The files of the reviewed folder that [clean_reviewed_files] leaves,
    for the ids of the documents of [candidates/html]: a file goes when
    its id is not among them. *)
Definition clean_reviewed_files (candidates : gset string) (filenames : list string)
  : list string :=
  List.filter (λ filename, bool_decide (docid_of filename ∈ candidates)) filenames.

Lemma last_docid_app (front s d : string) :
  last_docid s = Some d → last_docid (front +:+ s) = Some d.
Proof.
  intros H. induction front as [|c front IH]; [done|].
  rewrite app_cons. simpl. by rewrite IH.
Qed.

Lemma last_docid_no_dash (s : string) : occurs "-" s = false → last_docid s = None.
Proof.
  induction s as [|c s IH]; simpl; [done|].
  destruct (decide (c = "-"%char)) as [|Hne]; [done|].
  intros H. rewrite IH by done. unfold here.
  destruct c as [[] [] [] [] [] [] [] []]; done.
Qed.

Lemma occurs_app (c : ascii) (s t : string) :
  occurs c (s +:+ t) = occurs c s || occurs c t.
Proof.
  induction s as [|a s IH]; [done|]. rewrite app_cons. simpl.
  by destruct (decide (a = c)).
Qed.

Lemma all_digits_occurs (c : ascii) (s : string) :
  is_digit c = false → all_digits s = true → occurs c s = false.
Proof.
  intros Hc. induction s as [|a s IH]; simpl; [done|].
  intros [Ha Hs]%andb_true_iff. rewrite IH by done.
  destruct (decide (a = c)) as [->|]; [congruence|done].
Qed.

Lemma lines_single (s : string) : occurs line_feed s = false → lines s = [s].
Proof.
  induction s as [|c s IH]; simpl; [done|].
  destruct (decide (c = line_feed)); [done|]. intros H. by rewrite IH.
Qed.

Lemma docid_line_exported_name (front : string) (n : Z) (extension : string) :
  0 ≤ n →
  occurs "-" extension = false →
  docid_line (front +:+ "-" +:+ pretty n +:+ "." +:+ extension) = pretty n.
Proof.
  intros Hn Hext. destruct (pretty_Z_digits n Hn) as (Hd & Hne & _).
  unfold docid_line. erewrite last_docid_app; [done|].
  change ("-" +:+ pretty n +:+ "." +:+ extension)
    with (String "-"%char (pretty n +:+ String "."%char extension)).
  simpl. rewrite last_docid_no_dash.
  - rewrite span_digits_all by done. by destruct (pretty n).
  - rewrite occurs_app. simpl. rewrite Hext, (all_digits_occurs "-" _ eq_refl Hd). done.
Qed.

Lemma lines_exported_name (front : string) (n : Z) (extension : string) :
  0 ≤ n →
  occurs line_feed front = false →
  occurs line_feed extension = false →
  lines (front +:+ "-" +:+ pretty n +:+ "." +:+ extension)
  = [front +:+ "-" +:+ pretty n +:+ "." +:+ extension].
Proof.
  intros Hn Hfront Hext. destruct (pretty_Z_digits n Hn) as (Hd & _ & _).
  apply lines_single.
  change ("-" +:+ pretty n +:+ "." +:+ extension)
    with (String "-"%char (pretty n +:+ String "."%char extension)).
  rewrite occurs_app, Hfront. simpl.
  rewrite occurs_app, (all_digits_occurs line_feed _ eq_refl Hd). simpl. exact Hext.
Qed.

(** X28. The id of a file named as the export names it: from
    [<prefix>-<n>.<extension>], with an extension without [-] and no line
    feed in the name, the id read back is [n] as it was written, whatever
    else the prefix holds. *)
Theorem docid_of_exported_name (front : string) (n : Z) (extension : string) :
  0 ≤ n →
  occurs "-" extension = false →
  occurs line_feed front = false →
  occurs line_feed extension = false →
  docid_of (front +:+ "-" +:+ pretty n +:+ "." +:+ extension) = pretty n.
Proof.
  intros Hn Hdash Hfront Hext. unfold docid_of.
  rewrite lines_exported_name by done. simpl.
  by apply docid_line_exported_name.
Qed.

Lemma docid_of_exported_name_witness :
  docid_of ("a.b_cd-4567-12345678" +:+ "-" +:+ pretty 23456 +:+ "." +:+ "ann.json")
  = pretty 23456.
Proof.
  apply (docid_of_exported_name "a.b_cd-4567-12345678" 23456 "ann.json");
    [lia|done|done|done].
Defined.

(** A line feed in the name keeps the substitution from covering it: the
    piece in front of the line feed stays in the id. *)
Example docid_of_two_lines :
  docid_of ("ab" +:+ String line_feed "cd-12.json") = "ab" +:+ String line_feed "12".
Proof. reflexivity. Qed.

(** X29. A reviewed file named [<prefix>-<n>.<extension>], with an extension
    without [-] and no line feed in the name, survives the cleaning exactly
    when [n] is the id of a candidate document. *)
Theorem clean_reviewed_files_keeps (candidates : gset string) (filenames : list string)
    (front : string) (n : Z) (extension : string) :
  0 ≤ n →
  occurs "-" extension = false →
  occurs line_feed front = false →
  occurs line_feed extension = false →
  (front +:+ "-" +:+ pretty n +:+ "." +:+ extension)
    ∈ clean_reviewed_files candidates filenames
  ↔ (front +:+ "-" +:+ pretty n +:+ "." +:+ extension) ∈ filenames
    ∧ pretty n ∈ candidates.
Proof.
  intros Hn Hdash Hfront Hext. unfold clean_reviewed_files.
  rewrite list_elem_of_In, filter_In, <- list_elem_of_In.
  rewrite bool_decide_eq_true.
  assert (docid_of (front +:+ "-" +:+ pretty n +:+ "." +:+ extension) = pretty n) as ->;
    [|done].
  unfold docid_of. rewrite lines_exported_name by done. simpl.
  by apply docid_line_exported_name.
Qed.

Lemma clean_reviewed_files_keeps_witness :
  ("doc" +:+ "-" +:+ pretty 17 +:+ "." +:+ "ann.json")
    ∈ clean_reviewed_files {["17"]} ["doc-17.ann.json"; "doc-18.ann.json"]
  ↔ ("doc" +:+ "-" +:+ pretty 17 +:+ "." +:+ "ann.json")
      ∈ ["doc-17.ann.json"; "doc-18.ann.json"]
    ∧ pretty 17 ∈ ({["17"]} : gset string).
Proof.
  apply (clean_reviewed_files_keeps {["17"]} ["doc-17.ann.json"; "doc-18.ann.json"]
           "doc" 17 "ann.json"); [lia|done|done|done].
Defined.

End CleanReviewed.
